(** * Word-level timing utilities (src/lib/word-timing.ts)

    A shallow embedding of [estimateWordTimings], [generateWordTimestamps],
    [findActiveWord] and [cleanWord], and the properties the specification
    states about them.

    Modelling choices.
    - A JavaScript string is its sequence of UTF-16 code units, so that
      [length] is the [.length] of the source and the glyph U+266A is one
      unit.
    - A JavaScript [number] holding a time is read twice.  The main
      development reads it as an exact rational ([Q]), without IEEE-754
      rounding, NaN or infinities; what is stated there is what does not
      depend on rounding: the shape of the results, the order of the
      records, the comparisons of [findActiveWord].  The module [Binary64]
      reads the same code in binary64 arithmetic (the primitive floats), each
      operation rounding as it does at run time; it carries what is stated
      about the computed values themselves.  Array indices are integers. *)

From Stdlib Require Import Floats.
From Stdlib Require Uint63.
From Stdlib Require Import Ascii String.
From Stdlib Require Import List Bool Arith NArith ZArith QArith Qround.
From Stdlib Require Import Lia Lqa Sorted.
Import ListNotations.
Local Open Scope nat_scope.

Set Implicit Arguments.

(** ** JavaScript strings *)

Module JsString.

Definition codeUnit := N.
Definition jsstring := list codeUnit.

(** An ASCII literal as a JavaScript string (one code unit per character). *)
Fixpoint str (s : string) : jsstring :=
  match s with
  | EmptyString => []
  | String a rest => N_of_ascii a :: str rest
  end.

(** U+266A EIGHTH NOTE. *)
Definition note : codeUnit := 9834%N.
Definition space : codeUnit := 32%N.

(** The class [\s] of an ECMAScript regular expression, which is also the
    set that [String.prototype.trim] removes: WhiteSpace and
    LineTerminator. *)
Definition isWhiteSpace (c : codeUnit) : bool :=
  ((9 <=? c) && (c <=? 13) || (c =? 32) || (c =? 160) || (c =? 5760)
   || (8192 <=? c) && (c <=? 8202)
   || (c =? 8232) || (c =? 8233) || (c =? 8239) || (c =? 8287)
   || (c =? 12288) || (c =? 65279))%N.

(** [s.split(/\s+/)]: the pieces of [s] between maximal runs of white
    space.  A leading or trailing run leaves an empty piece at that end, and
    the empty string gives one empty piece.  [inRun] tells that the unit
    before the current one belongs to a separator already consumed. *)
Fixpoint splitFrom (inRun : bool) (s : jsstring) : list jsstring :=
  match s with
  | [] => [[]]
  | c :: rest =>
      if isWhiteSpace c then
        if inRun then splitFrom true rest else [] :: splitFrom true rest
      else
        match splitFrom false rest with
        | piece :: pieces => (c :: piece) :: pieces
        | [] => [[c]]
        end
  end.

Definition split (s : jsstring) : list jsstring := splitFrom false s.

(** [s.replace(/\s+/g, ' ')]: every maximal run of white space becomes one
    U+0020. *)
Fixpoint collapseFrom (inRun : bool) (s : jsstring) : jsstring :=
  match s with
  | [] => []
  | c :: rest =>
      if isWhiteSpace c then
        if inRun then collapseFrom true rest else space :: collapseFrom true rest
      else c :: collapseFrom false rest
  end.

Definition replaceWhiteSpace (s : jsstring) : jsstring := collapseFrom false s.

Fixpoint trimStart (s : jsstring) : jsstring :=
  match s with
  | [] => []
  | c :: rest => if isWhiteSpace c then trimStart rest else s
  end.

(** The trailing run goes as soon as everything that is left is white
    space. *)
Fixpoint trimEnd (s : jsstring) : jsstring :=
  match s with
  | [] => []
  | c :: rest => if forallb isWhiteSpace s then [] else c :: trimEnd rest
  end.

Definition trim (s : jsstring) : jsstring := trimEnd (trimStart s).

(** The character class of [cleanWord]: U+266A, square brackets,
    parentheses, [. , ! ? ; :], apostrophe and double quote. *)
Definition isPunctuation (c : codeUnit) : bool :=
  ((c =? 9834) || (c =? 91) || (c =? 93) || (c =? 40) || (c =? 41)
   || (c =? 46) || (c =? 44) || (c =? 33) || (c =? 63) || (c =? 59)
   || (c =? 58) || (c =? 39) || (c =? 34))%N.

(** [s.replace(/[...]/g, '')] for that class. *)
Definition removePunctuation (s : jsstring) : jsstring :=
  filter (fun c => negb (isPunctuation c)) s.

(** [String.prototype.toLowerCase] is a builtin of the runtime.  It is
    modelled on the Basic Latin and Latin-1 Supplement blocks (A-Z and
    U+00C0-U+00DE without the multiplication sign U+00D7 move up by 32);
    code units outside these blocks are left as they are. *)
Definition lowerUnit (c : codeUnit) : codeUnit :=
  (if (65 <=? c) && (c <=? 90) then c + 32
   else if (192 <=? c) && (c <=? 222) && negb (c =? 215) then c + 32
   else c)%N.

Definition toLowerCase (s : jsstring) : jsstring := map lowerUnit s.

End JsString.

Import JsString.

(** ** cleanWord *)

(** A string of the Basic Latin and Latin-1 Supplement blocks, on which
    [toLowerCase] is the one of the runtime. *)
Definition isLatin1 (s : jsstring) : bool :=
  forallb (fun c => (c <=? 255)%N) s.

(** The pipeline of [cleanWord] over any lower-casing function. *)
Definition cleanWordWith (lower : jsstring -> jsstring) (word : jsstring)
  : jsstring :=
  lower (trim (replaceWhiteSpace (removePunctuation word))).

Definition cleanWord (word : jsstring) : jsstring :=
  cleanWordWith toLowerCase word.

(** [s.split(/\s+/).filter(w => w.length > 0)]: the white-space-delimited
    non-empty tokens, the words of [estimateWordTimings]. *)
Definition tokens (s : jsstring) : list jsstring :=
  filter (fun w => 0 <? length w) (split s).

(** What a token is: not empty, and free of white space. *)
Definition wordlike (w : jsstring) : Prop :=
  0 < length w /\ forallb (fun c => negb (isWhiteSpace c)) w = true.

(** The normal form the specification describes for [cleanWord]: tokens
    joined by single spaces. *)
Fixpoint unwords (ws : list jsstring) : jsstring :=
  match ws with
  | [] => []
  | [w] => w
  | w :: rest => w ++ space :: unwords rest
  end.

(** ** Segments and word timestamps *)

(** [offset] and [translation], optional in the source, are not read by the
    timing utilities and are left out. *)
Record TranscriptSegment : Type := mkSegment {
  text : jsstring;
  start : Q;
  duration : Q
}.

Record WordTimestamp : Type := mkWord {
  word : jsstring;
  w_start : Q;
  w_end : Q;
  segmentIndex : Z;
  wordIndex : Z
}.

Definition ofNat (n : nat) : Q := inject_Z (Z.of_nat n).

(** [Array.prototype.forEach] with its index argument, the callback
    threading the state it mutates. *)
Fixpoint forEach {St A : Type} (f : St -> A -> nat -> St) (l : list A)
    (index : nat) (st : St) : St :=
  match l with
  | [] => st
  | x :: rest => forEach f rest (S index) (f st x index)
  end.

(** ** estimateWordTimings *)

(** What the loop of [estimateWordTimings] mutates. *)
Record Cursor : Type := mkCursor {
  wordTimestamps : list WordTimestamp;
  currentTime : Q
}.

Definition wordDurationOf (textLength wordsLength : nat) (timePerWord : Q)
    (w : jsstring) : Q :=
  let wordLength := ofNat (length w) in
  let avgWordLength := (ofNat textLength / ofNat wordsLength)%Q in
  let lengthFactor := (wordLength / avgWordLength)%Q in
  (timePerWord * lengthFactor)%Q.

Definition eachWord (textLength wordsLength : nat) (timePerWord : Q)
    (segIndex : Z) (st : Cursor) (w : jsstring) (index : nat) : Cursor :=
  let wordDuration := wordDurationOf textLength wordsLength timePerWord w in
  {| wordTimestamps :=
       wordTimestamps st ++
       [ {| word := w;
            w_start := currentTime st;
            w_end := (currentTime st + wordDuration)%Q;
            segmentIndex := segIndex;
            wordIndex := Z.of_nat index |} ];
     currentTime := (currentTime st + wordDuration)%Q |}.

Definition estimateWordTimings (segment : TranscriptSegment)
    (segIndex : Z) : list WordTimestamp :=
  let words := filter (fun w => 0 <? length w) (split (text segment)) in
  if length words =? 0 then []
  else
    let timePerWord := (duration segment / ofNat (length words))%Q in
    wordTimestamps
      (forEach (eachWord (length (text segment)) (length words) timePerWord
                  segIndex)
         words 0%nat
         {| wordTimestamps := []; currentTime := start segment |}).

(** ** generateWordTimestamps *)

Definition generateWordTimestamps (transcript : list TranscriptSegment)
  : list WordTimestamp :=
  forEach (fun allWords segment index =>
             allWords ++ estimateWordTimings segment (Z.of_nat index))
    transcript 0%nat [].

(** ** findActiveWord *)

(** [Array.prototype.findIndex]: the first index whose element satisfies
    the predicate, [-1] when there is none. *)
Fixpoint findIndexFrom {A : Type} (p : A -> bool) (l : list A) (i : Z) : Z :=
  match l with
  | [] => (-1)%Z
  | x :: rest => if p x then i else findIndexFrom p rest (i + 1)%Z
  end.

Definition findIndex {A : Type} (p : A -> bool) (l : list A) : Z :=
  findIndexFrom p l 0%Z.

Definition Qlt_bool (x y : Q) : bool := negb (Qle_bool y x).

Definition isActive (t : Q) (w : WordTimestamp) : bool :=
  Qle_bool (w_start w) t && Qlt_bool t (w_end w).

Definition findActiveWord (words : list WordTimestamp) (t : Q) : Z :=
  findIndex (isActive t) words.

(** ** The loops, unrolled

    Recursive readings of the two [forEach] loops, used to reason about
    them; [estimateWordTimings_unfold] and [generateWordTimestamps_unfold]
    relate them to the definitions above. *)

Fixpoint timingsFrom (dur : jsstring -> Q) (segIndex : Z)
    (words : list jsstring) (index : nat) (cur : Q) : list WordTimestamp :=
  match words with
  | [] => []
  | w :: rest =>
      {| word := w; w_start := cur; w_end := (cur + dur w)%Q;
         segmentIndex := segIndex; wordIndex := Z.of_nat index |}
      :: timingsFrom dur segIndex rest (S index) (cur + dur w)%Q
  end.

Fixpoint wordsOfSegmentsFrom (index : nat)
    (transcript : list TranscriptSegment) : list WordTimestamp :=
  match transcript with
  | [] => []
  | segment :: rest =>
      estimateWordTimings segment (Z.of_nat index)
      ++ wordsOfSegmentsFrom (S index) rest
  end.

Definition Qsum (l : list Q) : Q := fold_right Qplus 0%Q l.

Definition sumLengths (ws : list jsstring) : nat :=
  fold_right (fun w n => length w + n) 0 ws.


(** Width of a record, and the time a segment ends. *)
Definition width (w : WordTimestamp) : Q := (w_end w - w_start w)%Q.


(** ** The word-by-word display

    The parts of the component [WordByWordDisplay] that work on the word
    timestamps. *)

(** [activeWordIndex >= 0 ? wordTimestamps[activeWordIndex].segmentIndex
    : -1].  An index with no record gives [undefined], and reading
    [segmentIndex] off it throws: [None]. *)
Definition activeSegmentIndex (wordTimestamps : list WordTimestamp)
    (activeWordIndex : Z) : option Z :=
  if (0 <=? activeWordIndex)%Z then
    match nth_error wordTimestamps (Z.to_nat activeWordIndex) with
    | Some w => Some (segmentIndex w)
    | None => None
    end
  else Some (-1)%Z.

(** The object [grouped] of [wordsBySegment], keyed by segment index. *)
Definition Grouped : Type := Z -> option (list WordTimestamp).

Definition noGroup : Grouped := fun _ => None.

Definition setGroup (grouped : Grouped) (key : Z)
    (value : list WordTimestamp) : Grouped :=
  fun k => if (k =? key)%Z then Some value else grouped k.

(** [if (!grouped[k]) grouped[k] = []; grouped[k].push(word)].  An array,
    empty or not, is truthy. *)
Definition groupWord (grouped : Grouped) (w : WordTimestamp) (index : nat)
  : Grouped :=
  let grouped1 :=
    match grouped (segmentIndex w) with
    | None => setGroup grouped (segmentIndex w) []
    | Some _ => grouped
    end in
  match grouped1 (segmentIndex w) with
  | Some l => setGroup grouped1 (segmentIndex w) (l ++ [w])
  | None => grouped1
  end.

Definition wordsBySegment (wordTimestamps : list WordTimestamp) : Grouped :=
  forEach groupWord wordTimestamps 0 noGroup.

(** [wordsBySegment[segIdx] || []]. *)
Definition segmentWords (grouped : Grouped) (segIdx : Z)
  : list WordTimestamp :=
  match grouped segIdx with
  | Some l => l
  | None => []
  end.

(** A record is active at [t]. *)
Definition activeAt (t : Q) (w : WordTimestamp) : Prop :=
  (w_start w <= t /\ t < w_end w)%Q.

(** ** Displaying a time *)

Fixpoint uintUnits (d : Decimal.uint) : jsstring :=
  match d with
  | Decimal.Nil => []
  | Decimal.D0 r => 48%N :: uintUnits r
  | Decimal.D1 r => 49%N :: uintUnits r
  | Decimal.D2 r => 50%N :: uintUnits r
  | Decimal.D3 r => 51%N :: uintUnits r
  | Decimal.D4 r => 52%N :: uintUnits r
  | Decimal.D5 r => 53%N :: uintUnits r
  | Decimal.D6 r => 54%N :: uintUnits r
  | Decimal.D7 r => 55%N :: uintUnits r
  | Decimal.D8 r => 56%N :: uintUnits r
  | Decimal.D9 r => 57%N :: uintUnits r
  end.

(** [Number.prototype.toString] on an integer that prints without an
    exponent (below 10^21 in absolute value): its decimal digits, after a
    minus sign when it is negative. *)
Definition numberToString (z : Z) : jsstring :=
  match z with
  | Zneg p => 45%N :: uintUnits (Pos.to_uint p)
  | _ => uintUnits (N.to_uint (Z.to_N z))
  end.

(** [s.padStart(targetLength, pad)] for a pad of one code unit. *)
Definition padStart (targetLength : nat) (pad : codeUnit) (s : jsstring)
  : jsstring :=
  repeat pad (targetLength - length s) ++ s.

(** The operator [%] on numbers: the remainder has the sign of the
    dividend, the quotient being rounded towards zero. *)
Definition truncate (x : Q) : Z :=
  if Qle_bool 0 x then Qfloor x else Qceiling x.

Definition remainder (x y : Q) : Q :=
  (x - y * inject_Z (truncate (x / y)))%Q.

Definition colon : codeUnit := 58%N.
Definition zero : codeUnit := 48%N.

(** [formatTime] of the word-by-word display. *)
Definition formatTime (seconds : Q) : jsstring :=
  let m := Qfloor (seconds / 60) in
  let s := Qfloor (remainder seconds 60) in
  numberToString m ++ colon :: padStart 2 zero (numberToString s).

(** [formatTimestamp] of the transcript library. *)
Definition formatTimestamp (seconds : Q) : jsstring :=
  let hours := Qfloor (seconds / 3600) in
  let minutes := Qfloor (remainder seconds 3600 / 60) in
  let secs := Qfloor (remainder seconds 60) in
  if (0 <? hours)%Z then
    numberToString hours
    ++ colon :: padStart 2 zero (numberToString minutes)
    ++ colon :: padStart 2 zero (numberToString secs)
  else
    numberToString minutes ++ colon :: padStart 2 zero (numberToString secs).

(** A number below one hundred on two decimal digits. *)
Definition twoDigits (z : Z) : jsstring :=
  [ (48 + Z.to_N (z / 10))%N; (48 + Z.to_N (z mod 10))%N ].

(** ** Segments from the transcript services

    The mapping at the end of [getYoutubeTranscript], from the raw segments
    of a service to the segments of the application. *)

(** A raw segment, with a text and numbers of milliseconds.  A field that
    is missing, or a number that is NaN, is [None]. *)
Record RawSegment : Type := mkRaw {
  raw_text : option jsstring;
  raw_offset : option Q;
  raw_duration : option Q
}.

(** [x || fallback] on a number: 0, NaN and [undefined] are falsy. *)
Definition orNumber (x : option Q) (fallback : Q) : Q :=
  match x with
  | Some q => if Qeq_bool q 0 then fallback else q
  | None => fallback
  end.

(** [x || ''] on a string. *)
Definition orEmpty (x : option jsstring) : jsstring :=
  match x with
  | Some s => s
  | None => []
  end.

Definition toSegment (segment : RawSegment) : TranscriptSegment :=
  let startMs := orNumber (raw_offset segment) 0 in
  let durationMs := orNumber (raw_duration segment) 2000 in
  let rawText := orEmpty (raw_text segment) in
  {| text := trim rawText;
     start := (startMs / 1000)%Q;
     duration := (durationMs / 1000)%Q |}.

Definition toSegments (transcript : list RawSegment)
  : list TranscriptSegment :=
  filter (fun seg => 0 <? length (text seg)) (map toSegment transcript).

(** ** The timing functions in binary64 arithmetic

    The code of [estimateWordTimings], [generateWordTimestamps] and
    [findActiveWord] once more, every [number] a double and every operation
    the IEEE-754 one. *)

Module Binary64.

(** An integer as a double (exact below 2^53). *)
Definition ofZ (z : Z) : float :=
  match z with
  | Zneg p => PrimFloat.opp (PrimFloat.of_uint63 (Uint63.of_Z (Zpos p)))
  | _ => PrimFloat.of_uint63 (Uint63.of_Z z)
  end.

Definition ofNat (n : nat) : float := ofZ (Z.of_nat n).

(** The double nearest to a fraction of two integers below 2^53. *)
Definition ofQ (q : Q) : float :=
  PrimFloat.div (ofZ (Qnum q)) (ofZ (Zpos (Qden q))).

Record TranscriptSegment : Type := mkSegment {
  text : jsstring;
  start : float;
  duration : float
}.

Record WordTimestamp : Type := mkWord {
  word : jsstring;
  w_start : float;
  w_end : float;
  segmentIndex : Z;
  wordIndex : Z
}.

Record Cursor : Type := mkCursor {
  wordTimestamps : list WordTimestamp;
  currentTime : float
}.

Definition wordDurationOf (textLength wordsLength : nat) (timePerWord : float)
    (w : jsstring) : float :=
  let wordLength := ofNat (length w) in
  let avgWordLength := PrimFloat.div (ofNat textLength) (ofNat wordsLength) in
  let lengthFactor := PrimFloat.div wordLength avgWordLength in
  PrimFloat.mul timePerWord lengthFactor.

Definition eachWord (textLength wordsLength : nat) (timePerWord : float)
    (segIndex : Z) (st : Cursor) (w : jsstring) (index : nat) : Cursor :=
  let wordDuration := wordDurationOf textLength wordsLength timePerWord w in
  {| wordTimestamps :=
       wordTimestamps st ++
       [ {| word := w;
            w_start := currentTime st;
            w_end := PrimFloat.add (currentTime st) wordDuration;
            segmentIndex := segIndex;
            wordIndex := Z.of_nat index |} ];
     currentTime := PrimFloat.add (currentTime st) wordDuration |}.

Definition estimateWordTimings (segment : TranscriptSegment)
    (segIndex : Z) : list WordTimestamp :=
  let words := filter (fun w => 0 <? length w) (split (text segment)) in
  if length words =? 0 then []
  else
    let timePerWord :=
      PrimFloat.div (duration segment) (ofNat (length words)) in
    wordTimestamps
      (forEach (eachWord (length (text segment)) (length words) timePerWord
                  segIndex)
         words 0%nat
         {| wordTimestamps := []; currentTime := start segment |}).

Definition generateWordTimestamps (transcript : list TranscriptSegment)
  : list WordTimestamp :=
  forEach (fun allWords segment index =>
             allWords ++ estimateWordTimings segment (Z.of_nat index))
    transcript 0%nat [].

(** [currentTime >= word.start && currentTime < word.end]. *)
Definition isActive (t : float) (w : WordTimestamp) : bool :=
  PrimFloat.leb (w_start w) t && PrimFloat.ltb t (w_end w).

Definition findActiveWord (words : list WordTimestamp) (t : float) : Z :=
  findIndex (isActive t) words.

(** The loop of [estimateWordTimings], unrolled. *)
Fixpoint timingsFrom (dur : jsstring -> float) (segIndex : Z)
    (words : list jsstring) (index : nat) (cur : float)
  : list WordTimestamp :=
  match words with
  | [] => []
  | w :: rest =>
      {| word := w; w_start := cur; w_end := PrimFloat.add cur (dur w);
         segmentIndex := segIndex; wordIndex := Z.of_nat index |}
      :: timingsFrom dur segIndex rest (S index) (PrimFloat.add cur (dur w))
  end.

End Binary64.

(** A segment of the exact reading, its numbers taken as doubles. *)
Definition toBinary64 (s : TranscriptSegment) : Binary64.TranscriptSegment :=
  {| Binary64.text := text s;
     Binary64.start := Binary64.ofQ (start s);
     Binary64.duration := Binary64.ofQ (duration s) |}.

(** ** Sample inputs *)

(** The end-to-end scenario of the specification. *)
Definition rick : TranscriptSegment :=
  {| text := str "We're no strangers to love";
     start := 0%Q; duration := 3.24%Q |}.


(** A segment of three words and no duration. *)
Definition instant : TranscriptSegment :=
  {| text := str "one two three"; start := 5%Q; duration := 0%Q |}.

(** A segment whose text is white space only. *)
Definition blank : TranscriptSegment :=
  {| text := str "   "; start := 1%Q; duration := 2%Q |}.

(** Two segments in sequence. *)
Definition song : list TranscriptSegment :=
  [ rick;
    {| text := str "You know the rules"; start := 4%Q; duration := 2%Q |} ].

(** Raw segments: one complete, one without a duration, one with a blank
    text. *)
Definition rawSong : list RawSegment :=
  [ {| raw_text := Some (str " Never gonna give ");
       raw_offset := Some 1000%Q; raw_duration := Some 1500%Q |};
    {| raw_text := Some (str "you up");
       raw_offset := Some 2500%Q; raw_duration := Some 0%Q |};
    {| raw_text := Some (str "  ");
       raw_offset := Some 4500%Q; raw_duration := Some 1000%Q |} ].



(** ** Worked examples *)

Example cleanWord_hello : cleanWord (str "Hello,") = str "hello".
Proof. reflexivity. Qed.

Example cleanWord_note :
  cleanWord (note :: str "mmm" ++ [note]) = str "mmm".
Proof. reflexivity. Qed.

Example cleanWord_multi :
  cleanWord (str "  Multi   space  ") = str "multi space".
Proof. reflexivity. Qed.

Example rick_words :
  map word (estimateWordTimings rick 0) =
  [str "We're"; str "no"; str "strangers"; str "to"; str "love"].
Proof. reflexivity. Qed.

Example rick_starts :
  map (fun w => Qred (w_start w)) (estimateWordTimings rick 0) =
  [0; 81 # 130; 567 # 650; 648 # 325; 729 # 325]%Q.
Proof. vm_compute. reflexivity. Qed.

(** ** Arithmetic helpers *)

Lemma ofNat_pos (n : nat) : 0 < n -> (0 < ofNat n)%Q.
Proof.
  intros H. unfold ofNat, Qlt. simpl. lia.
Qed.




Lemma Qlt_bool_iff (x y : Q) : Qlt_bool x y = true <-> (x < y)%Q.
Proof.
  unfold Qlt_bool. rewrite negb_true_iff. split.
  - intros H. apply Qnot_le_lt. intros L.
    apply Qle_bool_iff in L. congruence.
  - intros H. destruct (Qle_bool y x) eqn:E; [|reflexivity].
    apply Qle_bool_iff in E. exfalso. exact (Qlt_not_le _ _ H E).
Qed.

(** The duration the loop gives a word, in closed form. *)
Lemma wordDurationOf_closed (L N : nat) (d : Q) (w : jsstring) :
  0 < L -> 0 < N ->
  (wordDurationOf L N (d / ofNat N) w == d * ofNat (length w) / ofNat L)%Q.
Proof.
  intros HL HN. unfold wordDurationOf.
  pose proof (ofNat_pos HL) as PL. pose proof (ofNat_pos HN) as PN.
  field. split; lra.
Qed.

(** ** The loops and their unrolled readings *)

Lemma forEach_eachWord (L N : nat) (tpw : Q) (idx : Z) (words : list jsstring) :
  forall index st,
    wordTimestamps (forEach (eachWord L N tpw idx) words index st) =
    wordTimestamps st
    ++ timingsFrom (wordDurationOf L N tpw) idx words index (currentTime st).
Proof.
  induction words as [|w rest IH]; intros index st; simpl.
  - now rewrite app_nil_r.
  - rewrite IH. simpl. now rewrite <- app_assoc.
Qed.

Lemma estimateWordTimings_unfold (segment : TranscriptSegment) (idx : Z) :
  estimateWordTimings segment idx =
  timingsFrom
    (wordDurationOf (length (text segment)) (length (tokens (text segment)))
       (duration segment / ofNat (length (tokens (text segment)))))
    idx (tokens (text segment)) 0 (start segment).
Proof.
  unfold estimateWordTimings. fold (tokens (text segment)).
  destruct (tokens (text segment)) as [|w rest] eqn:E.
  - reflexivity.
  - cbv zeta. change (length (w :: rest) =? 0) with false. cbv iota.
    now rewrite forEach_eachWord.
Qed.

Lemma forEach_generate (transcript : list TranscriptSegment) :
  forall index acc,
    forEach (fun allWords segment i =>
               allWords ++ estimateWordTimings segment (Z.of_nat i))
      transcript index acc
    = acc ++ wordsOfSegmentsFrom index transcript.
Proof.
  induction transcript as [|s rest IH]; intros index acc; simpl.
  - now rewrite app_nil_r.
  - rewrite IH. now rewrite <- app_assoc.
Qed.

Lemma generateWordTimestamps_unfold (transcript : list TranscriptSegment) :
  generateWordTimestamps transcript = wordsOfSegmentsFrom 0 transcript.
Proof.
  unfold generateWordTimestamps. now rewrite forEach_generate.
Qed.

(** ** Tokens of a text *)

Lemma sumLengths_filter (ws : list jsstring) :
  sumLengths (filter (fun w => 0 <? length w) ws) = sumLengths ws.
Proof.
  induction ws as [|w rest IH]; simpl; [reflexivity|].
  destruct w as [|c w]; simpl; [exact IH|]. now rewrite IH.
Qed.

Lemma sumLengths_splitFrom (s : jsstring) :
  forall inRun, sumLengths (splitFrom inRun s) <= length s.
Proof.
  induction s as [|c rest IH]; intros inRun; simpl; [lia|].
  destruct (isWhiteSpace c).
  - destruct inRun; simpl; specialize (IH true); lia.
  - specialize (IH false).
    destruct (splitFrom false rest) as [|piece pieces]; simpl in *; lia.
Qed.

(** The tokens never hold more code units than the text they come from. *)
Lemma sumLengths_tokens (s : jsstring) : sumLengths (tokens s) <= length s.
Proof.
  unfold tokens. rewrite sumLengths_filter. apply sumLengths_splitFrom.
Qed.

Lemma tokens_nonempty (s : jsstring) :
  Forall (fun w => 0 < length w) (tokens s).
Proof.
  unfold tokens. apply Forall_forall. intros w H.
  apply filter_In in H. destruct H as [_ H]. now apply Nat.ltb_lt in H.
Qed.

Lemma sumLengths_ge (ws : list jsstring) :
  Forall (fun w => 0 < length w) ws -> length ws <= sumLengths ws.
Proof.
  induction 1 as [|w rest Hw _ IH]; simpl; lia.
Qed.

(** A text with a token is not empty. *)
Lemma text_length_pos (s : jsstring) :
  1 <= length (tokens s) -> 0 < length s.
Proof.
  intros H. pose proof (sumLengths_tokens s).
  pose proof (sumLengths_ge (tokens_nonempty s)). lia.
Qed.

(** ** Records of one segment *)

Section Timings.

Variable dur : jsstring -> Q.
Variable idx : Z.

Lemma timingsFrom_length (words : list jsstring) :
  forall index cur,
    length (timingsFrom dur idx words index cur) = length words.
Proof.
  induction words as [|w rest IH]; intros; simpl; [reflexivity|].
  now rewrite IH.
Qed.

Lemma timingsFrom_word (words : list jsstring) :
  forall index cur, map word (timingsFrom dur idx words index cur) = words.
Proof.
  induction words as [|w rest IH]; intros; simpl; [reflexivity|].
  now rewrite IH.
Qed.

Lemma timingsFrom_segmentIndex (words : list jsstring) :
  forall index cur,
    Forall (fun w => segmentIndex w = idx)
      (timingsFrom dur idx words index cur).
Proof.
  induction words as [|w rest IH]; intros; simpl; constructor; auto.
Qed.

Lemma timingsFrom_wordIndex (words : list jsstring) :
  forall index cur,
    map wordIndex (timingsFrom dur idx words index cur)
    = map Z.of_nat (seq index (length words)).
Proof.
  induction words as [|w rest IH]; intros; simpl; [reflexivity|].
  now rewrite IH.
Qed.

(** The record at position [i] is the one of the [i]-th word, and it is
    as wide as the duration of that word. *)
Lemma timingsFrom_nth (words : list jsstring) :
  forall i index cur tok,
    nth_error words i = Some tok ->
    exists r,
      nth_error (timingsFrom dur idx words index cur) i = Some r
      /\ word r = tok
      /\ wordIndex r = Z.of_nat (index + i)
      /\ w_end r = (w_start r + dur tok)%Q
      /\ (width r == dur tok)%Q.
Proof.
  induction words as [|w rest IH]; intros i index cur tok H.
  - destruct i; discriminate.
  - destruct i as [|i]; simpl in *.
    + injection H as ->. eexists. split; [reflexivity|].
      repeat split; simpl.
      * f_equal. lia.
      * unfold width. simpl. ring.
    + destruct (IH i (S index) (cur + dur w)%Q tok H)
        as (r & Hr & Hw & Hi & He & Hd).
      exists r. repeat split; auto. rewrite Hi. f_equal. lia.
Qed.

(** Cursor continuity: a record ends where the next one starts. *)
Lemma timingsFrom_continuous (words : list jsstring) :
  forall i index cur a b,
    nth_error (timingsFrom dur idx words index cur) i = Some a ->
    nth_error (timingsFrom dur idx words index cur) (S i) = Some b ->
    w_end a = w_start b.
Proof.
  induction words as [|w rest IH]; intros i index cur a b Ha Hb.
  - destruct i; discriminate.
  - destruct i as [|i]; simpl in Ha, Hb.
    + injection Ha as <-. destruct rest as [|w' rest']; simpl in Hb.
      * discriminate.
      * injection Hb as <-. reflexivity.
    + eapply IH; eassumption.
Qed.

End Timings.

(** ** estimateWordTimings: shape of the result *)

(** C2: for a segment whose text has N >= 1 tokens, [estimateWordTimings]
    returns exactly N records; their [word] fields are the tokens in order,
    every [segmentIndex] is the index given, and the [wordIndex] fields are
    0, 1, ..., N-1 in order. *)
Theorem estimateWordTimings_records (segment : TranscriptSegment) (idx : Z) :
  let words := tokens (text segment) in
  1 <= length words ->
  length (estimateWordTimings segment idx) = length words
  /\ map word (estimateWordTimings segment idx) = words
  /\ Forall (fun r => segmentIndex r = idx) (estimateWordTimings segment idx)
  /\ map wordIndex (estimateWordTimings segment idx)
     = map Z.of_nat (seq 0 (length words)).
Proof.
  intros words _. rewrite estimateWordTimings_unfold. fold words.
  repeat split.
  - apply timingsFrom_length.
  - apply timingsFrom_word.
  - apply timingsFrom_segmentIndex.
  - apply timingsFrom_wordIndex.
Qed.

Lemma estimateWordTimings_records_witness :
  1 <= length (tokens (text rick))
  /\ length (estimateWordTimings rick 7) = 5
  /\ map wordIndex (estimateWordTimings rick 7) = [0; 1; 2; 3; 4]%Z.
Proof.
  assert (H : 1 <= length (tokens (text rick))) by (vm_compute; lia).
  split; [exact H|].
  destruct (estimateWordTimings_records rick 7 H) as (Hl & _ & _ & Hi).
  split; [exact Hl | exact Hi].
Defined.

(** C3: cursor continuity.  The first record starts at [segment.start] and
    each record ends where the next one starts. *)
Theorem estimateWordTimings_continuity (segment : TranscriptSegment)
    (idx : Z) :
  1 <= length (tokens (text segment)) ->
  (exists first,
      nth_error (estimateWordTimings segment idx) 0 = Some first
      /\ w_start first = start segment)
  /\ forall i a b,
      nth_error (estimateWordTimings segment idx) i = Some a ->
      nth_error (estimateWordTimings segment idx) (S i) = Some b ->
      w_end a = w_start b.
Proof.
  intros HN. rewrite estimateWordTimings_unfold. split.
  - destruct (tokens (text segment)) as [|w rest]; simpl in *; [lia|].
    eexists. split; reflexivity.
  - intros i a b. apply timingsFrom_continuous.
Qed.

Lemma estimateWordTimings_continuity_witness :
  1 <= length (tokens (text rick))
  /\ forall a b,
      nth_error (estimateWordTimings rick 0) 1 = Some a ->
      nth_error (estimateWordTimings rick 0) 2 = Some b ->
      w_end a = w_start b.
Proof.
  assert (H : 1 <= length (tokens (text rick))) by (vm_compute; lia).
  split; [exact H|].
  exact (proj2 (estimateWordTimings_continuity rick 0 H) 1).
Defined.

(** ** Bounds on the records of one segment *)


Section TimingBounds.

Variable dur : jsstring -> Q.
Variable idx : Z.

Lemma timingsFrom_widths (words : list jsstring) :
  forall index cur,
    (Qsum (map width (timingsFrom dur idx words index cur))
     == Qsum (map dur words))%Q.
Proof.
  induction words as [|w rest IH]; intros; simpl; [reflexivity|].
  rewrite IH. unfold width. simpl. ring.
Qed.

Lemma timingsFrom_In (words : list jsstring) :
  forall index cur r,
    In r (timingsFrom dur idx words index cur) ->
    In (word r) words /\ (width r == dur (word r))%Q.
Proof.
  induction words as [|w rest IH]; intros index cur r H; simpl in H.
  - contradiction.
  - destruct H as [<- | H]; simpl.
    + split; [now left|]. unfold width. simpl. ring.
    + destruct (IH _ _ _ H). split; [now right | assumption].
Qed.

Hypothesis dur_nonneg : forall w, (0 <= dur w)%Q.



End TimingBounds.

(** Every record of a segment belongs to a token of its text and has the
    width given by the closed form. *)
Lemma estimateWordTimings_In (segment : TranscriptSegment) (idx : Z)
    (r : WordTimestamp) :
  In r (estimateWordTimings segment idx) ->
  0 < length (word r)
  /\ 0 < length (text segment)
  /\ (width r ==
      duration segment * ofNat (length (word r))
      / ofNat (length (text segment)))%Q.
Proof.
  intros H. rewrite estimateWordTimings_unfold in H.
  apply timingsFrom_In in H. destruct H as [Hin Hw].
  assert (HN : 1 <= length (tokens (text segment))).
  { destruct (tokens (text segment)); simpl in *; [contradiction | lia]. }
  pose proof (text_length_pos _ HN) as HL.
  split; [|split; [exact HL|]].
  - pose proof (tokens_nonempty (text segment)) as F.
    rewrite Forall_forall in F. now apply F.
  - rewrite Hw. now apply wordDurationOf_closed.
Qed.

Lemma closed_form_sign (d : Q) (n L : nat) :
  0 < n -> 0 < L ->
  ((0 <= d -> 0 <= d * ofNat n / ofNat L)
   /\ (d == 0 -> d * ofNat n / ofNat L == 0)
   /\ (d < 0 -> d * ofNat n / ofNat L < 0))%Q.
Proof.
  intros Hn HL.
  pose proof (ofNat_pos Hn) as Pn. pose proof (ofNat_pos HL) as PL.
  assert (PI : (0 < / ofNat L)%Q) by now apply Qinv_lt_0_compat.
  assert (PP : (0 < ofNat n * / ofNat L)%Q) by now apply Qmult_lt_0_compat.
  unfold Qdiv. rewrite <- Qmult_assoc.
  set (k := (ofNat n * / ofNat L)%Q) in *.
  repeat split; intros H.
  - apply Qmult_le_0_compat; lra.
  - rewrite H. ring.
  - setoid_replace 0%Q with (0 * k)%Q by ring.
    now apply Qmult_lt_compat_r.
Qed.

(** ** estimateWordTimings: sign of the widths *)




(** ** Sums of the durations in exact arithmetic *)




(** ** findActiveWord *)

Lemma isActive_iff (t : Q) (w : WordTimestamp) :
  isActive t w = true <-> (w_start w <= t /\ t < w_end w)%Q.
Proof.
  unfold isActive. now rewrite andb_true_iff, Qle_bool_iff, Qlt_bool_iff.
Qed.

Section FindIndex.

Variable A : Type.
Variable p : A -> bool.

Lemma findIndexFrom_none (l : list A) :
  forall i, (forall x, In x l -> p x = false) ->
            findIndexFrom p l i = (-1)%Z.
Proof.
  induction l as [|x rest IH]; intros i H; simpl; [reflexivity|].
  rewrite (H x) by now left. apply IH. intros y Hy. apply H. now right.
Qed.

Lemma findIndexFrom_first (l : list A) :
  forall i k x,
    nth_error l k = Some x -> p x = true ->
    (forall j y, j < k -> nth_error l j = Some y -> p y = false) ->
    findIndexFrom p l i = (i + Z.of_nat k)%Z.
Proof.
  induction l as [|a rest IH]; intros i k x Hk Hp Hlt.
  - destruct k; discriminate.
  - destruct k as [|k]; simpl in *.
    + injection Hk as ->. rewrite Hp. lia.
    + rewrite (Hlt 0 a) by (reflexivity || lia).
      rewrite (IH (i + 1)%Z k x Hk Hp); [lia|].
      intros j y Hj Hy. apply (Hlt (S j) y); [lia | exact Hy].
Qed.

(** What [findIndex] returns is [-1] or the position of an element that
    satisfies the predicate. *)
Lemma findIndexFrom_found (l : list A) :
  forall i, (0 <= i)%Z ->
    findIndexFrom p l i = (-1)%Z
    \/ exists k x, findIndexFrom p l i = (i + Z.of_nat k)%Z
                   /\ nth_error l k = Some x /\ p x = true.
Proof.
  induction l as [|a rest IH]; intros i Hi; simpl; [now left|].
  destruct (p a) eqn:E.
  - right. exists 0, a. repeat split; [lia | exact E].
  - destruct (IH (i + 1)%Z ltac:(lia)) as [H | (k & x & H & Hk & Hp)].
    + now left.
    + right. exists (S k), x. repeat split; [lia | exact Hk | exact Hp].
Qed.

End FindIndex.

(** A word list made of zero-width records has no active word. *)
Lemma estimateWordTimings_zero_duration (segment : TranscriptSegment)
    (idx : Z) (r : WordTimestamp) :
  (duration segment == 0)%Q ->
  In r (estimateWordTimings segment idx) -> (w_start r == w_end r)%Q.
Proof.
  intros Hd H. destruct (estimateWordTimings_In _ _ _ H) as (Hw & HL & Hwd).
  destruct (closed_form_sign (duration segment) Hw HL) as (_ & S2 & _).
  specialize (S2 Hd). rewrite <- Hwd in S2. unfold width in S2. lra.
Qed.

(** C4: [findActiveWord words t] is the least index whose record has
    [start <= t < end], and [-1] when there is no such record; the record
    at the index returned is never one with [start == end], so the records
    of a segment of duration 0 are never found. *)
Theorem findActiveWord_spec :
  (forall words t i w,
      nth_error words i = Some w ->
      (w_start w <= t /\ t < w_end w)%Q ->
      (forall j w', j < i -> nth_error words j = Some w' ->
                    ~ (w_start w' <= t /\ t < w_end w')%Q) ->
      findActiveWord words t = Z.of_nat i)
  /\ (forall words t,
         (forall w, In w words -> ~ (w_start w <= t /\ t < w_end w)%Q) ->
         findActiveWord words t = (-1)%Z)
  /\ (forall words t i w,
         findActiveWord words t = Z.of_nat i ->
         nth_error words i = Some w ->
         (w_start w <= t /\ t < w_end w)%Q /\ ~ (w_start w == w_end w)%Q)
  /\ (forall segment idx,
         (duration segment == 0)%Q ->
         (forall r, In r (estimateWordTimings segment idx) ->
                    (w_start r == w_end r)%Q)
         /\ forall t,
             findActiveWord (estimateWordTimings segment idx) t = (-1)%Z).
Proof.
  assert (inactive : forall t w,
             ~ (w_start w <= t /\ t < w_end w)%Q -> isActive t w = false).
  { intros t w H. destruct (isActive t w) eqn:E; [|reflexivity].
    apply isActive_iff in E. contradiction. }
  split; [|split; [|split]].
  - intros words t i w Hi Hw Hlt. unfold findActiveWord, findIndex.
    rewrite (findIndexFrom_first (isActive t) words 0 Hi).
    + lia.
    + now apply isActive_iff.
    + intros j y Hj Hy. apply inactive. now apply (Hlt j).
  - intros words t H. apply findIndexFrom_none.
    intros w Hw. now apply inactive, H.
  - intros words t i w Hf Hi. unfold findActiveWord, findIndex in Hf.
    destruct (findIndexFrom_found (isActive t) words (i := 0) ltac:(lia))
      as [H | (k & x & H & Hk & Hp)].
    + lia.
    + assert (k = i) by lia. subst k.
      assert (x = w) by congruence. subst x.
      apply isActive_iff in Hp. split; [exact Hp|].
      intros E. destruct Hp as [H1 H2]. lra.
  - intros segment idx Hd.
    pose proof (fun r => @estimateWordTimings_zero_duration segment idx r Hd)
      as Z0.
    split; [exact Z0|].
    intros t. apply findIndexFrom_none. intros r Hr. apply inactive.
    specialize (Z0 r Hr). intros [H1 H2]. lra.
Qed.

Lemma findActiveWord_spec_witness :
  (duration instant == 0)%Q
  /\ length (estimateWordTimings instant 0) = 3
  /\ forall t, findActiveWord (estimateWordTimings instant 0) t = (-1)%Z.
Proof.
  assert (D : (duration instant == 0)%Q) by reflexivity.
  split; [exact D|]. split; [reflexivity|].
  exact (proj2 (proj2 (proj2 (proj2 findActiveWord_spec)) instant 0%Z D)).
Defined.

(** ** Segments without a token *)

Lemma wordsOfSegmentsFrom_app (a b : list TranscriptSegment) :
  forall index,
    wordsOfSegmentsFrom index (a ++ b)
    = wordsOfSegmentsFrom index a
      ++ wordsOfSegmentsFrom (index + length a) b.
Proof.
  induction a as [|s rest IH]; intros index; simpl.
  - now rewrite Nat.add_0_r.
  - rewrite IH, <- app_assoc.
    now replace (S index + length rest) with (index + S (length rest)) by lia.
Qed.

(** C7: a segment whose text has no token gives the empty sequence, and in
    the batch form it contributes nothing: the result is made of the words
    of the segments before it followed by those of the segments after it,
    each at its own index.  (The estimator is a total function: no input
    makes it fail.) *)
Theorem estimateWordTimings_no_token (segment : TranscriptSegment) :
  tokens (text segment) = [] ->
  (forall idx, estimateWordTimings segment idx = [])
  /\ forall earlier later,
      generateWordTimestamps (earlier ++ segment :: later)
      = generateWordTimestamps earlier
        ++ wordsOfSegmentsFrom (S (length earlier)) later.
Proof.
  intros H.
  assert (E : forall idx, estimateWordTimings segment idx = []).
  { intros idx. rewrite estimateWordTimings_unfold, H. reflexivity. }
  split; [exact E|].
  intros earlier later. rewrite !generateWordTimestamps_unfold.
  rewrite wordsOfSegmentsFrom_app. simpl. rewrite E. reflexivity.
Qed.

Lemma estimateWordTimings_no_token_witness :
  tokens (text blank) = []
  /\ estimateWordTimings blank 3 = []
  /\ generateWordTimestamps [rick; blank; rick]
     = generateWordTimestamps [rick] ++ wordsOfSegmentsFrom 2 [rick].
Proof.
  assert (H : tokens (text blank) = []) by reflexivity.
  split; [exact H|]. split.
  - exact (proj1 (estimateWordTimings_no_token blank H) 3%Z).
  - exact (proj2 (estimateWordTimings_no_token blank H) [rick] [rick]).
Defined.

(** ** Words of a whole transcript *)



Lemma StronglySorted_append (A : Type) (R : A -> A -> Prop) (l1 l2 : list A) :
  StronglySorted R l1 -> StronglySorted R l2 ->
  (forall a b, In a l1 -> In b l2 -> R a b) ->
  StronglySorted R (l1 ++ l2).
Proof.
  induction 1 as [|a l1 S1 IH F1]; intros S2 H; simpl; [exact S2|].
  constructor.
  - apply IH; [exact S2|]. intros x y Hx Hy. apply H; [now right | exact Hy].
  - apply Forall_app. split; [exact F1|].
    apply Forall_forall. intros y Hy. apply H; [now left | exact Hy].
Qed.









Example song_active :
  map (findActiveWord (generateWordTimestamps song))
      [0; 0.62; 0.63; 2.5; 3; 4; 5.9]%Q
  = [0; 0; 1; 4; -1; 5; -1]%Z.
Proof. vm_compute. reflexivity. Qed.

(** ** White space: split, collapse and trim *)

Lemma splitFrom_cons (s : jsstring) (inRun : bool) :
  exists piece pieces, splitFrom inRun s = piece :: pieces.
Proof.
  destruct s as [|c rest]; simpl; [now eexists; eexists|].
  destruct (isWhiteSpace c).
  - destruct inRun; [|now eexists; eexists].
    revert c. induction rest as [|c' rest IH]; intros c; simpl.
    + now eexists; eexists.
    + destruct (isWhiteSpace c'); [apply (IH c')|].
      destruct (splitFrom false rest); now eexists; eexists.
  - destruct (splitFrom false rest); now eexists; eexists.
Qed.

Lemma tokens_any_run (s : jsstring) :
  tokens s = filter (fun w => 0 <? length w) (splitFrom true s).
Proof.
  unfold tokens, split. destruct s as [|c rest]; simpl; [reflexivity|].
  destruct (isWhiteSpace c); reflexivity.
Qed.

(** A text has no token exactly when it is made of white space. *)
Lemma tokens_nil_iff (s : jsstring) :
  tokens s = [] <-> forallb isWhiteSpace s = true.
Proof.
  rewrite tokens_any_run. induction s as [|c rest IH]; simpl.
  - tauto.
  - destruct (isWhiteSpace c); simpl; [exact IH|].
    destruct (splitFrom false rest); simpl; split; discriminate.
Qed.

Lemma tokens_spaces (n : nat) : tokens (repeat space n) = [].
Proof.
  apply tokens_nil_iff. induction n as [|n IH]; [reflexivity | exact IH].
Qed.

Lemma collapseFrom_all_space (s : jsstring) :
  forall inRun,
    forallb isWhiteSpace (collapseFrom inRun s) = forallb isWhiteSpace s.
Proof.
  induction s as [|c rest IH]; intros inRun; simpl; [reflexivity|].
  destruct (isWhiteSpace c) eqn:E; simpl.
  - destruct inRun; simpl; apply IH.
  - now rewrite E.
Qed.

Lemma collapseFrom_in_run (s : jsstring) :
  collapseFrom true s = collapseFrom false (trimStart s).
Proof.
  induction s as [|c rest IH]; simpl; [reflexivity|].
  destruct (isWhiteSpace c) eqn:E; [exact IH|]. simpl. now rewrite E.
Qed.

Lemma trimStart_collapseFrom (s : jsstring) :
  forall inRun,
    trimStart (collapseFrom inRun s) = collapseFrom false (trimStart s).
Proof.
  induction s as [|c rest IH]; intros inRun; simpl; [reflexivity|].
  destruct (isWhiteSpace c) eqn:E.
  - destruct inRun; simpl; apply IH.
  - simpl. now rewrite E.
Qed.

Lemma trim_replaceWhiteSpace (s : jsstring) :
  trim (replaceWhiteSpace s) = trimEnd (collapseFrom true s).
Proof.
  unfold trim, replaceWhiteSpace.
  now rewrite trimStart_collapseFrom, collapseFrom_in_run.
Qed.

Lemma trimEnd_word (c : codeUnit) (s : jsstring) :
  isWhiteSpace c = false -> trimEnd (c :: s) = c :: trimEnd s.
Proof.
  intros E. simpl. now rewrite E.
Qed.

(** Collapsing and trimming leaves the tokens, one space apart. *)
Lemma normalise_tokens (s : jsstring) :
  trimEnd (collapseFrom true s)
  = unwords (filter (fun w => 0 <? length w) (splitFrom true s))
  /\ trimEnd (collapseFrom false s)
     = match splitFrom false s with
       | piece :: pieces =>
           match filter (fun w => 0 <? length w) pieces with
           | [] => piece
           | later => piece ++ space :: unwords later
           end
       | [] => []
       end.
Proof.
  induction s as [|c rest [IHt IHf]]; [split; reflexivity|].
  simpl. destruct (isWhiteSpace c) eqn:E.
  - split; [exact IHt|].
    cbn [trimEnd forallb]. change (isWhiteSpace space) with true.
    rewrite collapseFrom_all_space, <- tokens_any_run. cbn [andb app].
    destruct (forallb isWhiteSpace rest) eqn:A.
    + apply tokens_nil_iff in A. now rewrite A.
    + rewrite IHt, <- tokens_any_run.
      destruct (tokens rest) eqn:T; [|reflexivity].
      apply tokens_nil_iff in T. congruence.
  - rewrite (trimEnd_word c _ E), IHf.
    destruct (splitFrom_cons rest false) as (piece & pieces & ->).
    simpl.
    split; destruct (filter (fun w => 0 <? length w) pieces); reflexivity.
Qed.

Lemma trim_replaceWhiteSpace_tokens (s : jsstring) :
  trim (replaceWhiteSpace s) = unwords (tokens s).
Proof.
  rewrite trim_replaceWhiteSpace, tokens_any_run. apply normalise_tokens.
Qed.

(** Collapsing and trimming bring in nothing but U+0020. *)
Lemma In_collapseFrom (s : jsstring) :
  forall inRun c, In c (collapseFrom inRun s) -> c = space \/ In c s.
Proof.
  induction s as [|a rest IH]; intros inRun c H; simpl in *; [tauto|].
  destruct (isWhiteSpace a).
  - destruct inRun; [destruct (IH _ _ H); tauto|].
    destruct H as [<- | H]; [now left|]. destruct (IH _ _ H); tauto.
  - destruct H as [<- | H]; [tauto|]. destruct (IH _ _ H); tauto.
Qed.

Lemma In_trimStart (s : jsstring) (c : codeUnit) :
  In c (trimStart s) -> In c s.
Proof.
  induction s as [|a rest IH]; simpl; [tauto|].
  destruct (isWhiteSpace a); [intros H; right; now apply IH | tauto].
Qed.

Lemma In_trimEnd (s : jsstring) (c : codeUnit) :
  In c (trimEnd s) -> In c s.
Proof.
  induction s as [|a rest IH]; [tauto|].
  cbn [trimEnd]. destruct (forallb isWhiteSpace (a :: rest)); [contradiction|].
  intros [<- | H]; [now left | right; now apply IH].
Qed.

Lemma removePunctuation_clean (s : jsstring) :
  (forall c, In c s -> isPunctuation c = false) ->
  removePunctuation s = s.
Proof.
  induction s as [|a rest IH]; intros H; simpl; [reflexivity|].
  rewrite (H a) by now left. simpl. f_equal. apply IH.
  intros c Hc. apply H. now right.
Qed.

Lemma normalised_no_punctuation (w : jsstring) (c : codeUnit) :
  In c (trim (replaceWhiteSpace (removePunctuation w))) ->
  isPunctuation c = false.
Proof.
  intros H. apply In_trimEnd, In_trimStart, In_collapseFrom in H.
  destruct H as [-> | H]; [reflexivity|].
  apply filter_In in H. destruct H as [_ H]. now apply negb_true_iff in H.
Qed.

(** ** Tokens of a normal form *)

Lemma splitFrom_pieces (s : jsstring) :
  forall inRun,
    Forall (fun p => forallb (fun c => negb (isWhiteSpace c)) p = true)
      (splitFrom inRun s).
Proof.
  induction s as [|c rest IH]; intros inRun; simpl.
  - repeat constructor.
  - destruct (isWhiteSpace c) eqn:E.
    + destruct inRun; [apply IH|]. constructor; [reflexivity | apply IH].
    + specialize (IH false).
      destruct (splitFrom false rest) as [|piece pieces].
      * repeat constructor. simpl. now rewrite E.
      * inversion IH; subst. constructor; [|assumption].
        simpl. now rewrite E.
Qed.

Lemma tokens_wordlike (s : jsstring) : Forall wordlike (tokens s).
Proof.
  apply Forall_forall. intros w H. unfold tokens in H.
  apply filter_In in H. destruct H as [Hin Hne]. split.
  - now apply Nat.ltb_lt.
  - pose proof (splitFrom_pieces s false) as F.
    rewrite Forall_forall in F. now apply F.
Qed.

Lemma splitFrom_word_app (w rest : jsstring) :
  forallb (fun c => negb (isWhiteSpace c)) w = true ->
  splitFrom false (w ++ rest)
  = match splitFrom false rest with
    | piece :: pieces => (w ++ piece) :: pieces
    | [] => [w]
    end.
Proof.
  induction w as [|c w IH]; intros H; simpl.
  - now destruct (splitFrom_cons rest false) as (piece & pieces & ->).
  - simpl in H. apply andb_true_iff in H. destruct H as [Hc Hw].
    apply negb_true_iff in Hc. rewrite Hc, (IH Hw).
    now destruct (splitFrom false rest).
Qed.

(** Splitting what [unwords] joined gives the words back. *)
Lemma tokens_unwords (ws : list jsstring) :
  Forall wordlike ws -> tokens (unwords ws) = ws.
Proof.
  induction 1 as [|w rest [Hlen Hw] F IH]; [reflexivity|].
  assert (Hne : (0 <? length w) = true) by now apply Nat.ltb_lt.
  destruct rest as [|u rest'].
  - cbn [unwords]. unfold tokens, split.
    rewrite <- (app_nil_r w) at 1. rewrite (splitFrom_word_app w [] Hw).
    simpl. rewrite app_nil_r, Hne. reflexivity.
  - change (unwords (w :: u :: rest'))
      with (w ++ space :: unwords (u :: rest')).
    unfold tokens, split. rewrite (splitFrom_word_app w _ Hw).
    change (splitFrom false (space :: unwords (u :: rest')))
      with ([] :: splitFrom true (unwords (u :: rest'))).
    cbv iota beta. rewrite app_nil_r. cbn [filter].
    rewrite Hne, <- tokens_any_run. now rewrite IH.
Qed.

(** Collapsing and trimming a second time changes nothing. *)
Lemma trim_replaceWhiteSpace_idempotent (s : jsstring) :
  trim (replaceWhiteSpace (trim (replaceWhiteSpace s)))
  = trim (replaceWhiteSpace s).
Proof.
  rewrite !trim_replaceWhiteSpace_tokens.
  now rewrite (tokens_unwords (tokens_wordlike s)).
Qed.

(** ** Lower case *)

Lemma isPunctuation_letter (c : codeUnit) :
  (64 <= c <= 90 \/ 94 <= c <= 9833)%N -> isPunctuation c = false.
Proof.
  intros H. unfold isPunctuation.
  repeat match goal with
         | |- context [N.eqb c ?k] =>
             replace (N.eqb c k) with false
               by (symmetry; apply N.eqb_neq; lia)
         end.
  reflexivity.
Qed.

Lemma isWhiteSpace_letter (c : codeUnit) :
  (33 <= c <= 159 \/ 161 <= c <= 5759)%N -> isWhiteSpace c = false.
Proof.
  intros H. unfold isWhiteSpace.
  repeat match goal with
         | |- context [N.eqb c ?k] =>
             replace (N.eqb c k) with false
               by (symmetry; apply N.eqb_neq; lia)
         end.
  replace (c <=? 13)%N with false by (symmetry; apply N.leb_gt; lia).
  replace (8192 <=? c)%N with false by (symmetry; apply N.leb_gt; lia).
  now rewrite andb_false_r.
Qed.

Lemma lowerUnit_cases (c : codeUnit) :
  lowerUnit c = c
  \/ (lowerUnit c = c + 32
      /\ (65 <= c <= 90 \/ 192 <= c <= 222))%N.
Proof.
  unfold lowerUnit.
  destruct ((65 <=? c)%N && (c <=? 90)%N) eqn:A.
  - right. apply andb_true_iff in A. destruct A as [A1 A2].
    apply N.leb_le in A1, A2. split; [reflexivity | lia].
  - destruct ((192 <=? c)%N && (c <=? 222)%N && negb (c =? 215)%N) eqn:B.
    + right. rewrite !andb_true_iff in B. destruct B as [[B1 B2] _].
      apply N.leb_le in B1, B2. split; [reflexivity | lia].
    + now left.
Qed.

Lemma lowerUnit_punctuation (c : codeUnit) :
  isPunctuation (lowerUnit c) = isPunctuation c.
Proof.
  destruct (lowerUnit_cases c) as [-> | [-> H]]; [reflexivity|].
  rewrite !isPunctuation_letter by lia. reflexivity.
Qed.

Lemma lowerUnit_whiteSpace (c : codeUnit) :
  isWhiteSpace (lowerUnit c) = isWhiteSpace c.
Proof.
  destruct (lowerUnit_cases c) as [-> | [-> H]]; [reflexivity|].
  rewrite !isWhiteSpace_letter by lia. reflexivity.
Qed.

Lemma lowerUnit_idempotent (c : codeUnit) :
  lowerUnit (lowerUnit c) = lowerUnit c.
Proof.
  destruct (lowerUnit_cases c) as [E | [E H]]; rewrite E; [exact E|].
  unfold lowerUnit.
  replace (c + 32 <=? 90)%N with false by (symmetry; apply N.leb_gt; lia).
  rewrite andb_false_r. destruct H as [H | H].
  - now replace (192 <=? c + 32)%N with false
      by (symmetry; apply N.leb_gt; lia).
  - replace (c + 32 <=? 222)%N with false
      by (symmetry; apply N.leb_gt; lia).
    now rewrite andb_false_r.
Qed.

Lemma toLowerCase_all_space (s : jsstring) :
  forallb isWhiteSpace (toLowerCase s) = forallb isWhiteSpace s.
Proof.
  induction s as [|c rest IH]; simpl; [reflexivity|].
  now rewrite lowerUnit_whiteSpace, IH.
Qed.

Lemma toLowerCase_removePunctuation (s : jsstring) :
  removePunctuation (toLowerCase s) = toLowerCase (removePunctuation s).
Proof.
  induction s as [|c rest IH]; simpl; [reflexivity|].
  rewrite lowerUnit_punctuation.
  destruct (isPunctuation c); simpl; [exact IH | now f_equal].
Qed.

Lemma toLowerCase_collapseFrom (s : jsstring) :
  forall inRun,
    collapseFrom inRun (toLowerCase s) = toLowerCase (collapseFrom inRun s).
Proof.
  induction s as [|c rest IH]; intros inRun; simpl; [reflexivity|].
  rewrite lowerUnit_whiteSpace. destruct (isWhiteSpace c).
  - destruct inRun; simpl; [apply IH | f_equal; apply IH].
  - simpl. f_equal. apply IH.
Qed.

Lemma toLowerCase_trimStart (s : jsstring) :
  trimStart (toLowerCase s) = toLowerCase (trimStart s).
Proof.
  induction s as [|c rest IH]; simpl; [reflexivity|].
  rewrite lowerUnit_whiteSpace. now destruct (isWhiteSpace c).
Qed.

Lemma toLowerCase_trimEnd (s : jsstring) :
  trimEnd (toLowerCase s) = toLowerCase (trimEnd s).
Proof.
  induction s as [|c rest IH]; [reflexivity|].
  change (toLowerCase (c :: rest)) with (lowerUnit c :: toLowerCase rest).
  cbn [trimEnd forallb].
  rewrite lowerUnit_whiteSpace, toLowerCase_all_space.
  destruct (isWhiteSpace c && forallb isWhiteSpace rest); [reflexivity|].
  simpl. f_equal. exact IH.
Qed.

Lemma toLowerCase_idempotent (s : jsstring) :
  toLowerCase (toLowerCase s) = toLowerCase s.
Proof.
  unfold toLowerCase. rewrite map_map. apply map_ext.
  apply lowerUnit_idempotent.
Qed.

(** ** cleanWord *)

(** [cleanWord] applied twice, for any lower-casing function that keeps a
    string free of the punctuation class, keeps a string in normal form for
    white space, and changes nothing when applied again. *)
Section AnyLowerCase.

Variable lower : jsstring -> jsstring.

Hypothesis lower_punctuation :
  forall s, removePunctuation s = s -> removePunctuation (lower s) = lower s.
Hypothesis lower_whiteSpace :
  forall s, trim (replaceWhiteSpace s) = s ->
            trim (replaceWhiteSpace (lower s)) = lower s.
Hypothesis lower_idempotent : forall s, lower (lower s) = lower s.

Lemma cleanWordWith_fixed (w : jsstring) :
  removePunctuation (cleanWordWith lower w) = cleanWordWith lower w
  /\ trim (replaceWhiteSpace (cleanWordWith lower w)) = cleanWordWith lower w
  /\ lower (cleanWordWith lower w) = cleanWordWith lower w.
Proof.
  unfold cleanWordWith. repeat split.
  - apply lower_punctuation, removePunctuation_clean.
    intros c. apply normalised_no_punctuation.
  - apply lower_whiteSpace, trim_replaceWhiteSpace_idempotent.
  - apply lower_idempotent.
Qed.

Lemma cleanWordWith_idempotent (w : jsstring) :
  cleanWordWith lower (cleanWordWith lower w) = cleanWordWith lower w.
Proof.
  destruct (cleanWordWith_fixed w) as (P & W & L).
  unfold cleanWordWith at 1. now rewrite P, W, L.
Qed.

End AnyLowerCase.

Lemma toLowerCase_keeps_clean (s : jsstring) :
  removePunctuation s = s ->
  removePunctuation (toLowerCase s) = toLowerCase s.
Proof.
  intros H. now rewrite toLowerCase_removePunctuation, H.
Qed.

Lemma toLowerCase_keeps_normal (s : jsstring) :
  trim (replaceWhiteSpace s) = s ->
  trim (replaceWhiteSpace (toLowerCase s)) = toLowerCase s.
Proof.
  intros H. unfold trim, replaceWhiteSpace in *.
  now rewrite toLowerCase_collapseFrom, toLowerCase_trimStart,
    toLowerCase_trimEnd, H.
Qed.

(** C10: [cleanWord] is idempotent, its result being free of the
    punctuation class, in normal form for white space, and in lower
    case. *)
Theorem cleanWord_idempotent (w : jsstring) :
  cleanWord (cleanWord w) = cleanWord w
  /\ removePunctuation (cleanWord w) = cleanWord w
  /\ trim (replaceWhiteSpace (cleanWord w)) = cleanWord w
  /\ toLowerCase (cleanWord w) = cleanWord w.
Proof.
  split.
  - apply cleanWordWith_idempotent.
    + exact toLowerCase_keeps_clean.
    + exact toLowerCase_keeps_normal.
    + exact toLowerCase_idempotent.
  - apply cleanWordWith_fixed.
    + exact toLowerCase_keeps_clean.
    + exact toLowerCase_keeps_normal.
    + exact toLowerCase_idempotent.
Qed.

Lemma isPunctuation_iff (c : codeUnit) :
  isPunctuation c = true <-> In c (note :: 34%N :: str "[]().,!?;:'").
Proof.
  unfold isPunctuation. rewrite !orb_true_iff, !N.eqb_eq.
  simpl. unfold note. intuition congruence.
Qed.

(** C8: [cleanWord] removes every unit of the punctuation class (the
    glyph U+266A, the double quote and [ ] ( ) . , ! ? ; : '), leaves the
    tokens of what remains one U+0020 apart with nothing before or after
    them, and puts the result in lower case. *)
Theorem cleanWord_spec :
  (forall w,
      cleanWord w
      = toLowerCase
          (unwords (tokens (filter (fun c => negb (isPunctuation c)) w))))
  /\ (forall c,
         isPunctuation c = true
         <-> In c (note :: 34%N :: str "[]().,!?;:'"))
  /\ (forall w c, In c (cleanWord w) ->
                  isPunctuation c = false /\ ~ (65 <= c <= 90)%N)
  /\ cleanWord (str "Hello,") = str "hello"
  /\ cleanWord (note :: str "mmm" ++ [note]) = str "mmm"
  /\ cleanWord (str "  Multi   space  ") = str "multi space".
Proof.
  split; [|split; [|split; [|repeat split]]].
  - intros w. unfold cleanWord, cleanWordWith.
    now rewrite trim_replaceWhiteSpace_tokens.
  - exact isPunctuation_iff.
  - intros w c H. unfold cleanWord, cleanWordWith, toLowerCase in H.
    apply in_map_iff in H. destruct H as (c' & <- & H). split.
    + rewrite lowerUnit_punctuation.
      now apply (normalised_no_punctuation w).
    + destruct (lowerUnit_cases c') as [E | [E R]]; rewrite E; [|lia].
      unfold lowerUnit in E. intros U.
      replace ((65 <=? c')%N && (c' <=? 90)%N) with true in E
        by (symmetry; apply andb_true_iff; split; apply N.leb_le; lia).
      lia.
Qed.

Lemma cleanWord_spec_witness :
  In 104%N (cleanWord (str "Hello,"))
  /\ isPunctuation 104%N = false.
Proof.
  assert (H : In 104%N (cleanWord (str "Hello,"))) by (left; reflexivity).
  split; [exact H|].
  exact (proj1 (proj1 (proj2 (proj2 cleanWord_spec)) (str "Hello,") 104%N H)).
Defined.

(** * Further properties *)

(** ** generateWordTimestamps: the flattened sequence *)

Lemma estimateWordTimings_segmentIndex (segment : TranscriptSegment)
    (idx : Z) (r : WordTimestamp) :
  In r (estimateWordTimings segment idx) -> segmentIndex r = idx.
Proof.
  rewrite estimateWordTimings_unfold. intros H.
  pose proof (timingsFrom_segmentIndex
                (wordDurationOf (length (text segment))
                   (length (tokens (text segment)))
                   (duration segment
                    / ofNat (length (tokens (text segment)))))
                idx (tokens (text segment)) 0 (start segment)) as F.
  rewrite Forall_forall in F. now apply F.
Qed.

Lemma estimateWordTimings_word (segment : TranscriptSegment) (idx : Z) :
  map word (estimateWordTimings segment idx) = tokens (text segment).
Proof.
  rewrite estimateWordTimings_unfold. apply timingsFrom_word.
Qed.

Lemma wordsOfSegmentsFrom_word (transcript : list TranscriptSegment) :
  forall index,
    map word (wordsOfSegmentsFrom index transcript)
    = concat (map (fun s => tokens (text s)) transcript).
Proof.
  induction transcript as [|s rest IH]; intros index; simpl; [reflexivity|].
  now rewrite map_app, estimateWordTimings_word, IH.
Qed.

(** X1: the words of [generateWordTimestamps] are the tokens of the
    segments, segment after segment and in the order of the text. *)
Theorem generateWordTimestamps_words (transcript : list TranscriptSegment) :
  map word (generateWordTimestamps transcript)
  = concat (map (fun s => tokens (text s)) transcript).
Proof.
  rewrite generateWordTimestamps_unfold. apply wordsOfSegmentsFrom_word.
Qed.

Lemma wordsOfSegmentsFrom_origin (transcript : list TranscriptSegment) :
  forall index r,
    In r (wordsOfSegmentsFrom index transcript) ->
    exists k s,
      nth_error transcript k = Some s
      /\ segmentIndex r = Z.of_nat (index + k)
      /\ In r (estimateWordTimings s (Z.of_nat (index + k))).
Proof.
  induction transcript as [|s rest IH]; intros index r H; simpl in H.
  - contradiction.
  - apply in_app_or in H. destruct H as [H | H].
    + exists 0, s. rewrite Nat.add_0_r. split; [reflexivity|].
      split; [now apply estimateWordTimings_segmentIndex in H | exact H].
    + destruct (IH _ _ H) as (k & s' & Hk & Hs & Hr).
      exists (S k), s'.
      replace (index + S k) with (S index + k) by lia. now split.
Qed.

(** X2: every record of [generateWordTimestamps] leads back to its
    segment: [segmentIndex] is a valid index of the transcript, and the
    record is one of those [estimateWordTimings] gives for the segment at
    that index, its word being a token of that segment's text. *)
Theorem generateWordTimestamps_origin (transcript : list TranscriptSegment)
    (r : WordTimestamp) :
  In r (generateWordTimestamps transcript) ->
  exists s,
    (0 <= segmentIndex r < Z.of_nat (length transcript))%Z
    /\ nth_error transcript (Z.to_nat (segmentIndex r)) = Some s
    /\ In r (estimateWordTimings s (segmentIndex r))
    /\ In (word r) (tokens (text s)).
Proof.
  rewrite generateWordTimestamps_unfold. intros H.
  destruct (wordsOfSegmentsFrom_origin _ _ _ H) as (k & s & Hk & Hs & Hr).
  simpl in Hs, Hr. exists s. rewrite Hs, Nat2Z.id.
  assert (k < length transcript) by (apply nth_error_Some; congruence).
  repeat split; try lia; try assumption.
  rewrite <- (estimateWordTimings_word s (Z.of_nat k)).
  now apply in_map.
Qed.

Lemma generateWordTimestamps_origin_witness :
  exists r s,
    In r (generateWordTimestamps song)
    /\ nth_error song (Z.to_nat (segmentIndex r)) = Some s
    /\ In (word r) (tokens (text s)).
Proof.
  pose (r := nth 6 (generateWordTimestamps song) (mkWord [] 0 0 0 0)).
  assert (H : In r (generateWordTimestamps song)).
  { do 6 right. left. reflexivity. }
  destruct (generateWordTimestamps_origin song r H) as (s & _ & Hs & _ & Hw).
  exists r, s. split; [exact H|]. split; [exact Hs | exact Hw].
Defined.

Lemma constant_ascending (c : Z) (l : list Z) :
  Forall (fun z => z = c) l -> StronglySorted Z.le l.
Proof.
  induction 1 as [|z l -> F IH]; constructor; [exact IH|].
  eapply Forall_impl; [|exact F]. simpl. lia.
Qed.

Lemma wordsOfSegmentsFrom_ascending (transcript : list TranscriptSegment) :
  forall index,
    StronglySorted Z.le
      (map segmentIndex (wordsOfSegmentsFrom index transcript)).
Proof.
  induction transcript as [|s rest IH]; intros index; simpl.
  - constructor.
  - rewrite map_app. apply StronglySorted_append.
    + assert (F : Forall (fun z => z = Z.of_nat index)
                    (map segmentIndex
                       (estimateWordTimings s (Z.of_nat index)))).
      { apply Forall_forall. intros z Hz. apply in_map_iff in Hz.
        destruct Hz as (r & <- & Hr).
        now apply estimateWordTimings_segmentIndex in Hr. }
      now apply constant_ascending with (c := Z.of_nat index).
    + apply IH.
    + intros a b Ha Hb. apply in_map_iff in Ha, Hb.
      destruct Ha as (ra & <- & Ha). destruct Hb as (rb & <- & Hb).
      apply estimateWordTimings_segmentIndex in Ha.
      destruct (wordsOfSegmentsFrom_origin _ _ _ Hb) as (k & _ & _ & Hk & _).
      lia.
Qed.

(** X3: along the result of [generateWordTimestamps] the [segmentIndex]
    never decreases. *)
Theorem generateWordTimestamps_ascending
    (transcript : list TranscriptSegment) :
  StronglySorted Z.le (map segmentIndex (generateWordTimestamps transcript)).
Proof.
  rewrite generateWordTimestamps_unfold. apply wordsOfSegmentsFrom_ascending.
Qed.

(** ** findActiveWord on a well-formed transcript *)



Lemma findActiveWord_found (words : list WordTimestamp) (t : Q) :
  (0 <= findActiveWord words t)%Z ->
  exists r,
    nth_error words (Z.to_nat (findActiveWord words t)) = Some r
    /\ activeAt t r.
Proof.
  intros H. unfold findActiveWord, findIndex in *.
  destruct (findIndexFrom_found (isActive t) words (i := 0) ltac:(lia))
    as [E | (k & x & E & Hk & Hp)].
  - lia.
  - exists x. rewrite E. simpl. rewrite Nat2Z.id.
    split; [exact Hk | now apply isActive_iff].
Qed.



(** ** The word-by-word display *)


Lemma segmentWords_setGroup (grouped : Grouped) (key k : Z)
    (value : list WordTimestamp) :
  segmentWords (setGroup grouped key value) k
  = if (k =? key)%Z then value else segmentWords grouped k.
Proof.
  unfold segmentWords, setGroup. now destruct (k =? key)%Z.
Qed.

Lemma segmentWords_groupWord (grouped : Grouped) (w : WordTimestamp)
    (index : nat) (k : Z) :
  segmentWords (groupWord grouped w index) k
  = segmentWords grouped k
    ++ (if (segmentIndex w =? k)%Z then [w] else []).
Proof.
  unfold groupWord. rewrite (Z.eqb_sym (segmentIndex w) k).
  destruct (grouped (segmentIndex w)) as [l|] eqn:E.
  - rewrite E, segmentWords_setGroup.
    destruct (Z.eqb_spec k (segmentIndex w)) as [-> | N].
    + unfold segmentWords. now rewrite E.
    + now rewrite app_nil_r.
  - assert (F : setGroup grouped (segmentIndex w) [] (segmentIndex w)
                = Some []) by (unfold setGroup; now rewrite Z.eqb_refl).
    rewrite F, !segmentWords_setGroup.
    destruct (Z.eqb_spec k (segmentIndex w)) as [-> | N].
    + unfold segmentWords. now rewrite E.
    + now rewrite app_nil_r.
Qed.

(** Grouping keeps, under each key, the records of that segment index in
    their order. *)
Lemma segmentWords_forEach (words : list WordTimestamp) :
  forall index grouped k,
    segmentWords (forEach groupWord words index grouped) k
    = segmentWords grouped k
      ++ filter (fun w => (segmentIndex w =? k)%Z) words.
Proof.
  induction words as [|w rest IH]; intros index grouped k; simpl.
  - now rewrite app_nil_r.
  - rewrite IH, segmentWords_groupWord, <- app_assoc.
    now destruct (segmentIndex w =? k)%Z.
Qed.

Lemma filter_all (A : Type) (p : A -> bool) (l : list A) :
  (forall x, In x l -> p x = true) -> filter p l = l.
Proof.
  induction l as [|a l IH]; intros H; simpl; [reflexivity|].
  rewrite (H a) by now left. f_equal. apply IH. intros x Hx. apply H.
  now right.
Qed.

Lemma filter_none (A : Type) (p : A -> bool) (l : list A) :
  (forall x, In x l -> p x = false) -> filter p l = [].
Proof.
  induction l as [|a l IH]; intros H; simpl; [reflexivity|].
  rewrite (H a) by now left. apply IH. intros x Hx. apply H. now right.
Qed.

Lemma wordsOfSegmentsFrom_filter (transcript : list TranscriptSegment) :
  forall index k s,
    nth_error transcript k = Some s ->
    filter (fun w => (segmentIndex w =? Z.of_nat (index + k))%Z)
      (wordsOfSegmentsFrom index transcript)
    = estimateWordTimings s (Z.of_nat (index + k)).
Proof.
  induction transcript as [|s0 rest IH]; intros index k s Hk.
  - destruct k; discriminate.
  - simpl. rewrite filter_app. destruct k as [|k]; simpl in Hk.
    + injection Hk as ->. rewrite Nat.add_0_r.
      rewrite filter_all, filter_none; [apply app_nil_r | |].
      * intros x Hx. apply Z.eqb_neq.
        destruct (wordsOfSegmentsFrom_origin _ _ _ Hx) as (j & _ & _ & E & _).
        lia.
      * intros x Hx. apply Z.eqb_eq.
        now apply estimateWordTimings_segmentIndex in Hx.
    + rewrite filter_none.
      * replace (index + S k) with (S index + k) by lia. now apply IH.
      * intros x Hx. apply Z.eqb_neq.
        apply estimateWordTimings_segmentIndex in Hx. lia.
Qed.

(** X9: grouping undoes the flattening.  For every segment of the
    transcript, the words the display shows on its line,
    [wordsBySegment[segIdx] || []], are the records [estimateWordTimings]
    gives for that segment at that index, in order. *)
Theorem wordsBySegment_segment (transcript : list TranscriptSegment)
    (segIdx : nat) (segment : TranscriptSegment) :
  nth_error transcript segIdx = Some segment ->
  segmentWords (wordsBySegment (generateWordTimestamps transcript))
    (Z.of_nat segIdx)
  = estimateWordTimings segment (Z.of_nat segIdx).
Proof.
  intros H. unfold wordsBySegment.
  rewrite segmentWords_forEach, generateWordTimestamps_unfold. simpl.
  exact (wordsOfSegmentsFrom_filter transcript 0 segIdx H).
Qed.

Lemma wordsBySegment_segment_witness :
  nth_error song 1 = Some (nth 1 song rick)
  /\ map word
       (segmentWords (wordsBySegment (generateWordTimestamps song)) 1)
     = [str "You"; str "know"; str "the"; str "rules"].
Proof.
  assert (H : nth_error song 1 = Some (nth 1 song rick)) by reflexivity.
  split; [exact H|].
  exact (eq_trans (f_equal (map word) (wordsBySegment_segment song 1 H))
           eq_refl).
Defined.

(** ** The white space of a text *)



(** X13: joining words by single spaces and estimating gives one record
    per word, in order: the text is split back into the words it was made
    of. *)
Theorem estimateWordTimings_unwords (ws : list jsstring) (st d : Q)
    (idx : Z) :
  Forall wordlike ws ->
  map word
    (estimateWordTimings {| text := unwords ws; start := st; duration := d |}
       idx)
  = ws.
Proof.
  intros H. rewrite estimateWordTimings_word. simpl.
  now apply tokens_unwords.
Qed.

Lemma estimateWordTimings_unwords_witness :
  Forall wordlike [str "no"; str "strangers"]
  /\ map word
       (estimateWordTimings
          {| text := unwords [str "no"; str "strangers"];
             start := 0; duration := 1 |} 0)
     = [str "no"; str "strangers"].
Proof.
  assert (H : Forall wordlike [str "no"; str "strangers"]).
  { repeat constructor; simpl; lia. }
  split; [exact H|].
  exact (estimateWordTimings_unwords 0 1 0 H).
Defined.

(** ** cleanWord: further properties *)

Lemma cleanWord_tokens (w : jsstring) :
  cleanWord w = toLowerCase (unwords (tokens (removePunctuation w))).
Proof.
  unfold cleanWord, cleanWordWith.
  now rewrite trim_replaceWhiteSpace_tokens.
Qed.

Lemma unwords_nil_iff (ws : list jsstring) :
  Forall wordlike ws -> (unwords ws = [] <-> ws = []).
Proof.
  intros F. split; [|now intros ->].
  destruct F as [|w rest [Hlen _] _]; [reflexivity|].
  destruct w as [|c w]; [simpl in Hlen; lia|].
  destruct rest; discriminate.
Qed.

Lemma removePunctuation_all_space (w : jsstring) :
  forallb isWhiteSpace (removePunctuation w)
  = forallb (fun c => isPunctuation c || isWhiteSpace c) w.
Proof.
  induction w as [|c w IH]; simpl; [reflexivity|].
  destruct (isPunctuation c); simpl; [exact IH | now rewrite IH].
Qed.

(** X14: [cleanWord] gives the empty string exactly for the words made of
    nothing but white space and units of the punctuation class: these are
    the clicks the display ignores for want of anything to look up. *)
Theorem cleanWord_empty_iff (w : jsstring) :
  cleanWord w = []
  <-> forallb (fun c => isPunctuation c || isWhiteSpace c) w = true.
Proof.
  rewrite cleanWord_tokens, <- removePunctuation_all_space,
    <- tokens_nil_iff.
  unfold toLowerCase. split.
  - intros H. apply map_eq_nil in H.
    now apply (unwords_nil_iff (tokens_wordlike _)).
  - now intros ->.
Qed.

Lemma collapseFrom_length (s : jsstring) :
  forall inRun, length (collapseFrom inRun s) <= length s.
Proof.
  induction s as [|c rest IH]; intros inRun; simpl; [lia|].
  destruct (isWhiteSpace c).
  - destruct inRun; simpl; specialize (IH true); lia.
  - simpl. specialize (IH false). lia.
Qed.

Lemma trimStart_length (s : jsstring) : length (trimStart s) <= length s.
Proof.
  induction s as [|c rest IH]; simpl; [lia|].
  destruct (isWhiteSpace c); simpl; lia.
Qed.

Lemma trimEnd_length (s : jsstring) : length (trimEnd s) <= length s.
Proof.
  induction s as [|c rest IH]; [simpl; lia|].
  cbn [trimEnd]. destruct (forallb isWhiteSpace (c :: rest)); simpl; lia.
Qed.

Lemma removePunctuation_length (s : jsstring) :
  length (removePunctuation s) <= length s.
Proof.
  induction s as [|c rest IH]; simpl; [lia|].
  destruct (isPunctuation c); simpl; lia.
Qed.

(** X15: for a word of the Basic Latin and Latin-1 blocks, [cleanWord]
    never returns a longer string. *)
Theorem cleanWord_length (w : jsstring) :
  isLatin1 w = true ->
  length (cleanWord w) <= length w.
Proof.
  intros _. unfold cleanWord, cleanWordWith, toLowerCase, trim, replaceWhiteSpace,
    removePunctuation.
  rewrite length_map.
  pose proof (trimEnd_length
                (trimStart
                   (collapseFrom false
                      (filter (fun c => negb (isPunctuation c)) w)))).
  pose proof (trimStart_length
                (collapseFrom false
                   (filter (fun c => negb (isPunctuation c)) w))).
  pose proof (collapseFrom_length
                (filter (fun c => negb (isPunctuation c)) w) false).
  pose proof (removePunctuation_length w) as F.
  unfold removePunctuation in F. lia.
Qed.

Lemma removePunctuation_no_space (w : jsstring) :
  forallb (fun c => negb (isWhiteSpace c)) w = true ->
  forallb (fun c => negb (isWhiteSpace c)) (removePunctuation w) = true.
Proof.
  induction w as [|c w IH]; simpl; [reflexivity|].
  intros H. apply andb_true_iff in H. destruct H as [Hc Hw].
  destruct (isPunctuation c); simpl; [now apply IH|].
  now rewrite Hc, IH.
Qed.

Lemma toLowerCase_no_space (w : jsstring) :
  forallb (fun c => negb (isWhiteSpace c)) (toLowerCase w)
  = forallb (fun c => negb (isWhiteSpace c)) w.
Proof.
  induction w as [|c w IH]; simpl; [reflexivity|].
  now rewrite lowerUnit_whiteSpace, IH.
Qed.

(** Without white space there is nothing to collapse or trim. *)
Lemma trim_replaceWhiteSpace_word (w : jsstring) :
  forallb (fun c => negb (isWhiteSpace c)) w = true ->
  trim (replaceWhiteSpace w) = w.
Proof.
  intros H. rewrite trim_replaceWhiteSpace_tokens.
  destruct w as [|c w]; [reflexivity|].
  assert (F : Forall wordlike [c :: w]).
  { constructor; [split; [simpl; lia | exact H] | constructor]. }
  change (c :: w) with (unwords [c :: w]) at 1.
  now rewrite (tokens_unwords F).
Qed.

Lemma cleanWord_word (w : jsstring) :
  forallb (fun c => negb (isWhiteSpace c)) w = true ->
  cleanWord w = toLowerCase (removePunctuation w)
  /\ forallb (fun c => negb (isWhiteSpace c)) (cleanWord w) = true.
Proof.
  intros H. pose proof (removePunctuation_no_space w H) as R.
  unfold cleanWord, cleanWordWith.
  rewrite (trim_replaceWhiteSpace_word _ R). split; [reflexivity|].
  now rewrite toLowerCase_no_space.
Qed.

(** X16: for the word of a record of [generateWordTimestamps], which is
    what the display passes to [cleanWord] on a click, cleaning comes down
    to removing the punctuation class and lower-casing, and the result
    holds no white space. *)
Theorem cleanWord_of_record (transcript : list TranscriptSegment)
    (r : WordTimestamp) :
  In r (generateWordTimestamps transcript) ->
  cleanWord (word r) = toLowerCase (removePunctuation (word r))
  /\ forallb (fun c => negb (isWhiteSpace c)) (cleanWord (word r)) = true.
Proof.
  intros H. apply cleanWord_word.
  assert (Hw : In (word r) (map word (generateWordTimestamps transcript)))
    by now apply in_map.
  rewrite generateWordTimestamps_unfold, wordsOfSegmentsFrom_word in Hw.
  apply in_concat in Hw. destruct Hw as (ts & Hts & Hin).
  apply in_map_iff in Hts. destruct Hts as (s & <- & _).
  pose proof (tokens_wordlike (text s)) as F.
  rewrite Forall_forall in F. now destruct (F _ Hin).
Qed.

Lemma cleanWord_of_record_witness :
  exists r,
    In r (generateWordTimestamps song)
    /\ cleanWord (word r) = str "were".
Proof.
  pose (r := nth 0 (generateWordTimestamps song) (mkWord [] 0 0 0 0)).
  assert (H : In r (generateWordTimestamps song)) by (left; reflexivity).
  exists r. split; [exact H|].
  exact (eq_trans (proj1 (cleanWord_of_record song r H)) eq_refl).
Defined.

(** X17: on the Basic Latin and Latin-1 blocks [cleanWord] does not tell
    upper case from lower case: two such words with the same lower-case form
    are cleaned to the same string. *)
Theorem cleanWord_case_insensitive (w1 w2 : jsstring) :
  isLatin1 w1 = true -> isLatin1 w2 = true ->
  toLowerCase w1 = toLowerCase w2 -> cleanWord w1 = cleanWord w2.
Proof.
  intros _ _.
  assert (L : forall w, cleanWord (toLowerCase w) = cleanWord w).
  { intros w. unfold cleanWord, cleanWordWith, trim, replaceWhiteSpace.
    now rewrite toLowerCase_removePunctuation, toLowerCase_collapseFrom,
      toLowerCase_trimStart, toLowerCase_trimEnd, toLowerCase_idempotent. }
  intros H. now rewrite <- (L w1), <- (L w2), H.
Qed.

Lemma cleanWord_case_insensitive_witness :
  isLatin1 (str "HELLO,") = true
  /\ isLatin1 (str "hello,") = true
  /\ toLowerCase (str "HELLO,") = toLowerCase (str "hello,")
  /\ cleanWord (str "HELLO,") = cleanWord (str "hello,").
Proof.
  assert (H : toLowerCase (str "HELLO,") = toLowerCase (str "hello,"))
    by reflexivity.
  split; [reflexivity|]. split; [reflexivity|]. split; [exact H|].
  exact (cleanWord_case_insensitive (str "HELLO,") (str "hello,")
           eq_refl eq_refl H).
Defined.

Lemma cleanWord_length_witness :
  isLatin1 (str "  Multi   space  ") = true
  /\ length (cleanWord (str "  Multi   space  ")) <= 17.
Proof.
  split; [reflexivity|].
  exact (cleanWord_length (str "  Multi   space  ") eq_refl).
Defined.

(** ** Displaying a time *)

Example formatTime_examples :
  map formatTime [0; 5.9; 65; 3725.5]%Q
  = [str "0:00"; str "0:05"; str "1:05"; str "62:05"].
Proof. vm_compute. reflexivity. Qed.

Example formatTimestamp_examples :
  map formatTimestamp [0; 5.9; 65; 3725.5; 36000]%Q
  = [str "0:00"; str "0:05"; str "1:05"; str "1:02:05"; str "10:00:00"].
Proof. vm_compute. reflexivity. Qed.

Lemma Qfloor_unique (n : Z) (x : Q) :
  (inject_Z n <= x)%Q -> (x < inject_Z (n + 1))%Q -> Qfloor x = n.
Proof.
  intros Lo Hi.
  pose proof (Qfloor_le x) as F1. pose proof (Qlt_floor x) as F2.
  assert (A : (inject_Z n < inject_Z (Qfloor x + 1))%Q) by lra.
  assert (B : (inject_Z (Qfloor x) < inject_Z (n + 1))%Q) by lra.
  rewrite <- Zlt_Qlt in A, B. lia.
Qed.

Lemma inject_Z_pos (k : Z) : (0 < k)%Z -> (0 < inject_Z k)%Q.
Proof.
  intros H. unfold Qlt. simpl. lia.
Qed.

Lemma Qfloor_sub (x : Q) (z : Z) :
  Qfloor (x - inject_Z z) = (Qfloor x - z)%Z.
Proof.
  pose proof (Qfloor_le x) as F1. pose proof (Qlt_floor x) as F2.
  apply Qfloor_unique.
  - unfold Z.sub. rewrite inject_Z_plus, inject_Z_opp. lra.
  - replace (Qfloor x - z + 1)%Z with ((Qfloor x + 1) + - z)%Z by lia.
    rewrite inject_Z_plus, inject_Z_opp. lra.
Qed.

Lemma Qfloor_div (x : Q) (k : Z) :
  (0 < k)%Z -> Qfloor (x / inject_Z k) = (Qfloor x / k)%Z.
Proof.
  intros Hk.
  pose proof (Qfloor_le x) as F1. pose proof (Qlt_floor x) as F2.
  pose proof (inject_Z_pos Hk) as Pk.
  pose proof (Z.mul_div_le (Qfloor x) k Hk) as D1.
  pose proof (Z.mul_succ_div_gt (Qfloor x) k Hk) as D2.
  apply Qfloor_unique.
  - apply Qle_shift_div_l; [exact Pk|].
    rewrite <- inject_Z_mult.
    assert (inject_Z (Qfloor x / k * k) <= inject_Z (Qfloor x))%Q
      by (rewrite <- Zle_Qle; lia).
    lra.
  - apply Qlt_shift_div_r; [exact Pk|].
    rewrite <- inject_Z_mult.
    assert (inject_Z (Qfloor x + 1) <= inject_Z ((Qfloor x / k + 1) * k))%Q
      by (rewrite <- Zle_Qle; lia).
    lra.
Qed.

(** For a dividend that is not negative, flooring the remainder gives the
    remainder of the floor. *)
Lemma Qfloor_remainder (x : Q) (k : Z) :
  (0 <= x)%Q -> (0 < k)%Z ->
  Qfloor (remainder x (inject_Z k)) = (Qfloor x mod k)%Z.
Proof.
  intros Hx Hk. unfold remainder, truncate.
  pose proof (inject_Z_pos Hk) as Pk.
  assert (Hq : (0 <= x / inject_Z k)%Q).
  { apply Qle_shift_div_l; [exact Pk|]. lra. }
  apply Qle_bool_iff in Hq. rewrite Hq.
  rewrite <- inject_Z_mult, Qfloor_sub, (Qfloor_div x Hk).
  rewrite (Z.mod_eq (Qfloor x) k) by lia. reflexivity.
Qed.

Lemma Qfloor_nonneg (x : Q) : (0 <= x)%Q -> (0 <= Qfloor x)%Z.
Proof.
  intros H. change 0%Z with (Qfloor 0). now apply Qfloor_resp_le.
Qed.

Lemma padStart_twoDigits (z : Z) :
  (0 <= z < 60)%Z -> padStart 2 zero (numberToString z) = twoDigits z.
Proof.
  intros H. rewrite <- (Z2Nat.id z) by lia.
  assert (Hn : Z.to_nat z < 60) by lia.
  clear H. revert Hn. generalize (Z.to_nat z). intros n Hn.
  do 60 (destruct n as [|n]; [reflexivity|]). lia.
Qed.

Lemma formatTime_closed (seconds : Q) :
  (0 <= seconds)%Q ->
  formatTime seconds
  = numberToString (Qfloor seconds / 60)
    ++ colon :: twoDigits (Qfloor seconds mod 60).
Proof.
  intros H. unfold formatTime.
  change 60%Q with (inject_Z 60).
  rewrite (Qfloor_div seconds (k := 60)) by lia.
  rewrite (Qfloor_remainder H (k := 60)) by lia.
  rewrite padStart_twoDigits; [reflexivity|].
  apply Z.mod_pos_bound. lia.
Qed.

Lemma formatTimestamp_closed (seconds : Q) :
  (0 <= seconds)%Q ->
  formatTimestamp seconds
  = if (3600 <=? Qfloor seconds)%Z then
      numberToString (Qfloor seconds / 3600)
      ++ colon :: twoDigits (Qfloor seconds mod 3600 / 60)
      ++ colon :: twoDigits (Qfloor seconds mod 60)
    else
      numberToString (Qfloor seconds / 60)
      ++ colon :: twoDigits (Qfloor seconds mod 60).
Proof.
  intros H. unfold formatTimestamp.
  pose proof (Qfloor_nonneg H) as Hn.
  change 60%Q with (inject_Z 60). change 3600%Q with (inject_Z 3600).
  rewrite (Qfloor_div seconds (k := 3600)) by lia.
  rewrite (Qfloor_div (remainder seconds (inject_Z 3600)) (k := 60)) by lia.
  rewrite (Qfloor_remainder H (k := 3600)) by lia.
  rewrite (Qfloor_remainder H (k := 60)) by lia.
  pose proof (Z.mod_pos_bound (Qfloor seconds) 60 ltac:(lia)) as B60.
  pose proof (Z.mod_pos_bound (Qfloor seconds) 3600 ltac:(lia)) as B3600.
  assert (Bm : (0 <= Qfloor seconds mod 3600 / 60 < 60)%Z).
  { split; [apply Z.div_pos; lia | apply Z.div_lt_upper_bound; lia]. }
  rewrite !padStart_twoDigits by assumption.
  destruct (Z.leb_spec 3600 (Qfloor seconds)) as [L | L].
  - assert (0 < Qfloor seconds / 3600)%Z
      by (apply Z.div_str_pos; lia).
    replace (0 <? Qfloor seconds / 3600)%Z with true
      by (symmetry; apply Z.ltb_lt; assumption).
    reflexivity.
  - rewrite (Z.div_small (Qfloor seconds) 3600) by lia.
    rewrite (Z.mod_small (Qfloor seconds) 3600) by lia. reflexivity.
Qed.

(** X20: below one hour the two ways of displaying a time agree. *)
Theorem formatTimestamp_formatTime (seconds : Q) :
  (0 <= seconds)%Q -> (seconds < 3600)%Q ->
  formatTimestamp seconds = formatTime seconds.
Proof.
  intros H Hlt.
  rewrite (formatTimestamp_closed H), (formatTime_closed H).
  assert (Qfloor seconds < 3600)%Z.
  { pose proof (Qfloor_le seconds).
    rewrite Zlt_Qlt. change (inject_Z 3600) with 3600%Q. lra. }
  now replace (3600 <=? Qfloor seconds)%Z with false
    by (symmetry; apply Z.leb_gt; assumption).
Qed.

Lemma formatTimestamp_formatTime_witness :
  (0 <= 65)%Q /\ (65 < 3600)%Q /\ formatTimestamp 65 = formatTime 65.
Proof.
  assert (H : (0 <= 65)%Q) by (vm_compute; discriminate).
  assert (L : (65 < 3600)%Q) by reflexivity.
  split; [exact H|]. split; [exact L|].
  exact (formatTimestamp_formatTime H L).
Defined.

(** ** Segments from the transcript services *)

Example toSegments_rawSong :
  map (fun s => (text s, Qred (start s), Qred (duration s)))
    (toSegments rawSong)
  = [ (str "Never gonna give", 1%Q, (3 # 2)%Q);
      (str "you up", (5 # 2)%Q, 2%Q) ].
Proof. vm_compute. reflexivity. Qed.

Lemma trimStart_head (s : jsstring) :
  trimStart s = []
  \/ exists c rest, trimStart s = c :: rest /\ isWhiteSpace c = false.
Proof.
  induction s as [|c rest IH]; simpl; [now left|].
  destruct (isWhiteSpace c) eqn:E; [exact IH|].
  right. now exists c, rest.
Qed.

Lemma trim_head (s : jsstring) :
  trim s = []
  \/ exists c rest, trim s = c :: rest /\ isWhiteSpace c = false.
Proof.
  unfold trim.
  destruct (trimStart_head s) as [-> | (c & rest & -> & E)]; [now left|].
  right. rewrite (trimEnd_word c rest E). now exists c, (trimEnd rest).
Qed.

Lemma trimEnd_not_blank (s : jsstring) :
  forallb isWhiteSpace s = false -> forallb isWhiteSpace (trimEnd s) = false.
Proof.
  induction s as [|c rest IH]; intros H; [discriminate|].
  cbn [trimEnd]. rewrite H. simpl in *.
  destruct (isWhiteSpace c); [|reflexivity]. simpl in *. now apply IH.
Qed.

Lemma trimEnd_idempotent (s : jsstring) : trimEnd (trimEnd s) = trimEnd s.
Proof.
  induction s as [|c rest IH]; [reflexivity|].
  cbn [trimEnd]. destruct (forallb isWhiteSpace (c :: rest)) eqn:E;
    [reflexivity|].
  cbn [trimEnd]. rewrite IH.
  replace (forallb isWhiteSpace (c :: trimEnd rest)) with false;
    [reflexivity|].
  symmetry. simpl in *. destruct (isWhiteSpace c); [|reflexivity].
  simpl in *. now apply trimEnd_not_blank.
Qed.

Lemma trim_idempotent (s : jsstring) : trim (trim s) = trim s.
Proof.
  destruct (trim_head s) as [E | (c & rest & E & Hc)].
  - now rewrite E.
  - unfold trim at 1. rewrite E. simpl. rewrite Hc. rewrite <- E.
    unfold trim. apply trimEnd_idempotent.
Qed.

Lemma trim_tokens (s : jsstring) : trim s <> [] -> tokens (trim s) <> [].
Proof.
  intros H T. apply tokens_nil_iff in T.
  destruct (trim_head s) as [E | (c & rest & E & Hc)]; [contradiction|].
  rewrite E in T. simpl in T. now rewrite Hc in T.
Qed.

Lemma toSegments_In (transcript : list RawSegment) (s : TranscriptSegment) :
  In s (toSegments transcript) ->
  text s <> [] /\ exists raw, In raw transcript /\ s = toSegment raw.
Proof.
  unfold toSegments. intros H. apply filter_In in H. destruct H as [Hm Hl].
  apply in_map_iff in Hm. destruct Hm as (raw & <- & Hr). split.
  - intros E. rewrite E in Hl. discriminate.
  - now exists raw.
Qed.

(** X21: every segment that comes out of the mapping of
    [getYoutubeTranscript] has a text without white space at either end and
    with at least one word, so that [estimateWordTimings] gives it at least
    one record. *)
Theorem toSegments_segment (transcript : list RawSegment)
    (s : TranscriptSegment) (idx : Z) :
  In s (toSegments transcript) ->
  trim (text s) = text s
  /\ estimateWordTimings s idx <> [].
Proof.
  intros H. destruct (toSegments_In _ _ H) as (Ht & raw & _ & ->).
  change (text (toSegment raw)) with (trim (orEmpty (raw_text raw))) in *.
  split; [apply trim_idempotent|].
  pose proof (trim_tokens _ Ht) as T.
  intros E. apply T.
  change (trim (orEmpty (raw_text raw))) with (text (toSegment raw)).
  rewrite <- (estimateWordTimings_word (toSegment raw) idx), E.
  reflexivity.
Qed.

Lemma toSegments_segment_witness :
  exists s,
    In s (toSegments rawSong)
    /\ estimateWordTimings s 1 <> [].
Proof.
  pose (s := nth 1 (toSegments rawSong) rick).
  assert (H : In s (toSegments rawSong)) by (right; left; reflexivity).
  exists s. split; [exact H|].
  exact (proj2 (toSegments_segment rawSong s 1 H)).
Defined.

(** ** findActiveWord: range of the result *)

(** X23: whatever the list and the time, [findActiveWord] returns [-1] or
    an index of the list, so that the display can read the record at the
    index it gets. *)
Theorem findActiveWord_range (words : list WordTimestamp) (t : Q) :
  (-1 <= findActiveWord words t < Z.of_nat (length words))%Z
  /\ activeSegmentIndex words (findActiveWord words t) <> None.
Proof.
  unfold activeSegmentIndex.
  destruct (Z_lt_ge_dec (findActiveWord words t) 0) as [Neg | Pos].
  - assert (E : findActiveWord words t = (-1)%Z).
    { unfold findActiveWord, findIndex in *.
      destruct (findIndexFrom_found (isActive t) words (i := 0) ltac:(lia))
        as [E | (k & x & E & _)]; [exact E | lia]. }
    rewrite E. split; [lia | discriminate].
  - destruct (findActiveWord_found words t ltac:(lia)) as (r & Hr & _).
    assert (Z.to_nat (findActiveWord words t) < length words)
      by (apply nth_error_Some; congruence).
    split; [lia|].
    replace (0 <=? findActiveWord words t)%Z with true
      by (symmetry; apply Z.leb_le; lia).
    rewrite Hr. discriminate.
Qed.

(** ** estimateWordTimings: starts within a segment *)



(** ** estimateWordTimings: the tokens within the text *)


(** ** The timing functions in binary64 arithmetic *)

Lemma binary64_forEach_eachWord (L N : nat) (tpw : float) (idx : Z)
    (words : list jsstring) :
  forall index st,
    Binary64.wordTimestamps
      (forEach (Binary64.eachWord L N tpw idx) words index st)
    = Binary64.wordTimestamps st
      ++ Binary64.timingsFrom (Binary64.wordDurationOf L N tpw) idx words
           index (Binary64.currentTime st).
Proof.
  induction words as [|w rest IH]; intros index st; simpl.
  - now rewrite app_nil_r.
  - rewrite IH. simpl. now rewrite <- app_assoc.
Qed.

Lemma binary64_estimateWordTimings_unfold
    (segment : Binary64.TranscriptSegment) (idx : Z) :
  Binary64.estimateWordTimings segment idx
  = Binary64.timingsFrom
      (Binary64.wordDurationOf (length (Binary64.text segment))
         (length (tokens (Binary64.text segment)))
         (PrimFloat.div (Binary64.duration segment)
            (Binary64.ofNat (length (tokens (Binary64.text segment))))))
      idx (tokens (Binary64.text segment)) 0 (Binary64.start segment).
Proof.
  unfold Binary64.estimateWordTimings.
  fold (tokens (Binary64.text segment)).
  destruct (tokens (Binary64.text segment)) as [|w rest] eqn:E.
  - reflexivity.
  - cbv zeta. change (length (w :: rest) =? 0) with false. cbv iota.
    now rewrite binary64_forEach_eachWord.
Qed.

Lemma binary64_timingsFrom_nth (dur : jsstring -> float) (idx : Z)
    (words : list jsstring) :
  forall i index cur tok,
    nth_error words i = Some tok ->
    exists r,
      nth_error (Binary64.timingsFrom dur idx words index cur) i = Some r
      /\ Binary64.word r = tok
      /\ Binary64.w_end r = PrimFloat.add (Binary64.w_start r) (dur tok).
Proof.
  induction words as [|w rest IH]; intros i index cur tok H.
  - destruct i; discriminate.
  - destruct i as [|i]; simpl in *.
    + injection H as ->. eexists. repeat split.
    + apply IH. exact H.
Qed.

(** C1, as the specification states it, fails on the values the code
    computes: for the fourth word of the scenario of the specification,
    [end - start] is neither [timePerWord * lengthFactor] nor
    [duration * tokenLength / text.length], each taken in doubles, and these
    two differ as well. *)
Lemma estimateWordTimings_width_rounds :
  exists r,
    nth_error (Binary64.estimateWordTimings (toBinary64 rick) 0) 3 = Some r
    /\ Binary64.word r = str "to"
    /\ let timePerWord :=
         PrimFloat.div (Binary64.duration (toBinary64 rick))
           (Binary64.ofNat 5) in
       let avgWordLength :=
         PrimFloat.div (Binary64.ofNat 26) (Binary64.ofNat 5) in
       let lengthFactor :=
         PrimFloat.div (Binary64.ofNat 2) avgWordLength in
       let share :=
         PrimFloat.div
           (PrimFloat.mul (Binary64.duration (toBinary64 rick))
              (Binary64.ofNat 2))
           (Binary64.ofNat 26) in
       let width := PrimFloat.sub (Binary64.w_end r) (Binary64.w_start r) in
       PrimFloat.eqb width (PrimFloat.mul timePerWord lengthFactor) = false
       /\ PrimFloat.eqb width share = false
       /\ PrimFloat.eqb (PrimFloat.mul timePerWord lengthFactor) share
          = false.
Proof.
  eexists. split; [reflexivity|]. split; [reflexivity|].
  vm_compute. repeat split.
Qed.

(** C1, amended: the record of the i-th token ends at
    [start + timePerWord * lengthFactor], every operation the one of double
    arithmetic, with [timePerWord = duration / N],
    [avgWordLength = text.length / N] (the length of the whole text, not of
    the tokens) and [lengthFactor = token.length / avgWordLength]. *)
Theorem binary64_estimateWordTimings_end
    (segment : Binary64.TranscriptSegment) (idx : Z) (i : nat)
    (tok : jsstring) :
  let N := length (tokens (Binary64.text segment)) in
  let L := length (Binary64.text segment) in
  1 <= N ->
  nth_error (tokens (Binary64.text segment)) i = Some tok ->
  exists r,
    nth_error (Binary64.estimateWordTimings segment idx) i = Some r
    /\ Binary64.word r = tok
    /\ (let timePerWord :=
          PrimFloat.div (Binary64.duration segment) (Binary64.ofNat N) in
        let avgWordLength :=
          PrimFloat.div (Binary64.ofNat L) (Binary64.ofNat N) in
        let lengthFactor :=
          PrimFloat.div (Binary64.ofNat (length tok)) avgWordLength in
        Binary64.w_end r
        = PrimFloat.add (Binary64.w_start r)
            (PrimFloat.mul timePerWord lengthFactor)).
Proof.
  intros N L _ Htok. rewrite binary64_estimateWordTimings_unfold.
  fold N L.
  destruct (binary64_timingsFrom_nth
              (Binary64.wordDurationOf L N
                 (PrimFloat.div (Binary64.duration segment)
                    (Binary64.ofNat N)))
              idx (tokens (Binary64.text segment)) i 0
              (Binary64.start segment) Htok)
    as (r & Hr & Hw & He).
  exists r. split; [exact Hr|]. split; [exact Hw | exact He].
Qed.

Lemma binary64_estimateWordTimings_end_witness :
  1 <= length (tokens (Binary64.text (toBinary64 rick)))
  /\ nth_error (tokens (Binary64.text (toBinary64 rick))) 2
     = Some (str "strangers")
  /\ exists r,
       nth_error (Binary64.estimateWordTimings (toBinary64 rick) 0) 2
       = Some r
       /\ PrimFloat.ltb (Binary64.w_start r) (Binary64.w_end r) = true.
Proof.
  assert (H : 1 <= length (tokens (Binary64.text (toBinary64 rick))))
    by (vm_compute; lia).
  assert (T : nth_error (tokens (Binary64.text (toBinary64 rick))) 2
              = Some (str "strangers")) by reflexivity.
  split; [exact H|]. split; [exact T|].
  destruct (binary64_estimateWordTimings_end (toBinary64 rick) 0 2 H T)
    as (r & Hr & _ & He).
  exists r. split; [exact Hr|].
  vm_compute in Hr. injection Hr as <-. vm_compute. reflexivity.
Defined.


